(** * subliminal: score equations, provider matchers and query resolution

  A shallow embedding of [subliminal/score.py],
  [subliminal/providers/addic7ed.py] and
  [subliminal/providers/opensubtitles.py].

  - Python [unicode] strings are lists of code points ([list N]).
  - Python [None]-able values are [option]s, [dict]s are [gmap]s and
    [set]s are [gset]s.
  - A call that can raise returns an [outcome]; the exception is data.
  - Helpers the three files import from elsewhere (the string helpers of
    [subliminal/subtitle.py], guessit, babelfish, the HTTP and XML-RPC
    transports, the interpreter's Unicode tables) are the fields of the
    class [Collaborators]: every theorem holds for all of them. *)

From Stdlib Require Import Ascii String QArith Lqa.
From stdpp Require Import gmap strings list pretty.

Set Default Proof Using "Type".

(** ** sympy expressions and equalities, as far as [score.py] builds them *)

Module sympy.

Inductive expr (symbol : Type) : Type :=
  | Sym (s : symbol)
  | Int (n : Z)
  | Add (a b : expr symbol)
  | Mul (a b : expr symbol).
Arguments Sym {symbol} s.
Arguments Int {symbol} n.
Arguments Add {symbol} a b.
Arguments Mul {symbol} a b.

(** [Eq(lhs, rhs)] *)
Record Eq (symbol : Type) : Type := mkEq { lhs : expr symbol; rhs : expr symbol }.
Arguments mkEq {symbol} lhs rhs.
Arguments lhs {symbol} e.
Arguments rhs {symbol} e.

Section Semantics.
Context {symbol : Type}.

(** The value of an expression once every symbol has a value. *)
Fixpoint subs (w : symbol -> Q) (e : expr symbol) : Q :=
  match e with
  | Sym s => w s
  | Int n => inject_Z n
  | Add a b => subs w a + subs w b
  | Mul a b => subs w a * subs w b
  end.

Definition holds (w : symbol -> Q) (e : Eq symbol) : Prop :=
  subs w (lhs e) == subs w (rhs e).

Definition holdsb (w : symbol -> Q) (e : Eq symbol) : bool :=
  Qeq_bool (subs w (lhs e)) (subs w (rhs e)).

(** [w] is a solution of the system: what [solve(equations, symbols)]
  returns when the system has exactly one. *)
Definition solves (w : symbol -> Q) (equations : list (Eq symbol)) : Prop :=
  Forall (holds w) equations.

Definition solvesb (w : symbol -> Q) (equations : list (Eq symbol)) : bool :=
  forallb (holdsb w) equations.
End Semantics.

End sympy.

(** ** score.py *)

Module Score.

(** The thirteen [symbols(...)] of the module; they double as the
    attribute names a matcher puts in a match set. *)
Inductive symbol : Type :=
  | release_group | resolution | format | video_codec | audio_codec
  | imdb_id | hash | title | series | tvdb_id | season | episode
  | year.

#[global] Instance symbol_eq_dec : EqDecision symbol.
Proof. solve_decision. Defined.

Definition symbol_index (s : symbol) : nat :=
  match s with
  | release_group => 0 | resolution => 1 | format => 2 | video_codec => 3
  | audio_codec => 4 | imdb_id => 5 | hash => 6 | title => 7 | series => 8
  | tvdb_id => 9 | season => 10 | episode => 11 | year => 12
  end.

Definition symbol_of_index (n : nat) : option symbol :=
  match n with
  | 0 => Some release_group | 1 => Some resolution | 2 => Some format
  | 3 => Some video_codec | 4 => Some audio_codec | 5 => Some imdb_id
  | 6 => Some hash | 7 => Some title | 8 => Some series | 9 => Some tvdb_id
  | 10 => Some season | 11 => Some episode | 12 => Some year
  | _ => None
  end.

#[global] Instance symbol_countable : Countable symbol.
Proof.
  refine (inj_countable symbol_index symbol_of_index _).
  by intros [].
Defined.

Declare Scope sym_scope.
Delimit Scope sym_scope with sym.
Coercion sym (s : symbol) : sympy.expr symbol := sympy.Sym s.
Notation "a + b" := (sympy.Add a b) : sym_scope.
Notation "a * b" := (sympy.Mul a b) : sym_scope.
Coercion int (n : Z) : sympy.expr symbol := sympy.Int n.
Definition Eq (lhs rhs : sympy.expr symbol) : sympy.Eq symbol := sympy.mkEq lhs rhs.

Definition get_episode_equations : list (sympy.Eq symbol) :=
  [ Eq hash (resolution + format + video_codec + audio_codec + release_group
             + series + year + season)%sym;
    Eq series (resolution + video_codec + audio_codec + release_group + format + 1%Z)%sym;
    Eq series year;
    Eq tvdb_id (series + year)%sym;
    Eq season series;
    Eq imdb_id (series + season + episode + year)%sym;
    Eq format 4%Z;
    Eq resolution 4%Z;
    Eq video_codec 1%Z;
    Eq title (season + episode)%sym;
    Eq season episode;
    Eq release_group 8%Z;
    Eq audio_codec 2%Z ].

Definition get_movie_equations : list (sympy.Eq symbol) :=
  [ Eq hash (resolution + format + video_codec + audio_codec + title + year
             + release_group)%sym;
    Eq imdb_id hash;
    Eq resolution video_codec;
    Eq video_codec (2%Z * audio_codec)%sym;
    Eq format (video_codec + audio_codec)%sym;
    Eq title (resolution + video_codec + audio_codec + year + 1%Z)%sym;
    Eq video_codec (2%Z * audio_codec)%sym;
    Eq release_group (resolution + video_codec + audio_codec + 1%Z)%sym;
    Eq year (release_group + 1%Z)%sym;
    Eq audio_codec 1%Z ].

(** The symbol lists handed to [solve] in the [__main__] block. *)
Definition episode_symbols : list symbol :=
  [release_group; resolution; format; video_codec; audio_codec; imdb_id;
   hash; series; tvdb_id; season; episode; title; year].

Definition movie_symbols : list symbol :=
  [release_group; resolution; format; video_codec; audio_codec; imdb_id;
   hash; title; year].

(** The closed forms of the two solutions. *)
Definition episode_weights (s : symbol) : Q :=
  inject_Z match s with
  | release_group => 8 | resolution => 4 | format => 4 | video_codec => 1
  | audio_codec => 2 | series => 20 | year => 20 | season => 20
  | episode => 20 | title => 40 | tvdb_id => 40 | hash => 79 | imdb_id => 80
  end.

(** A movie system says nothing about the four episode symbols; they are
    0 here and absent from the weight map below. *)
Definition movie_weights (s : symbol) : Q :=
  inject_Z match s with
  | audio_codec => 1 | video_codec => 2 | resolution => 2 | format => 3
  | release_group => 6 | year => 7 | title => 13 | hash => 34 | imdb_id => 34
  | series | tvdb_id | season | episode => 0
  end.

(** The dictionary [solve] returns: the solution restricted to the
    symbols it was asked for. *)
Definition weight_map (symbols : list symbol) (w : symbol -> Q) : gmap symbol Q :=
  list_to_map ((fun s => (s, w s)) <$> symbols).

(** Modelled from the spec: the score calculator is not in the three
    source files. The spec defines it as
    [score(matchSet, weightMap) = sum of weightMap[a] for a in matchSet],
    undefined when the match set holds an attribute the weight map lacks. *)
Definition compute_score (weightMap : gmap symbol Q) (matchSet : gset symbol) : option Q :=
  ws ← mapM (fun a => weightMap !! a) (elements matchSet);
  Some (foldr Qplus 0%Q ws).

(** The same sum over a list of attributes, with 0 for an attribute the
    map lacks: what [compute_score] returns when it returns. *)
Definition total (weightMap : gmap symbol Q) (attributes : list symbol) : Q :=
  foldr (fun a acc => default 0 (weightMap !! a) + acc)%Q 0%Q attributes.

End Score.

(** ** Python values *)

Module Py.

(** A [unicode] object: its code points. *)
Abbreviation unicode := (list N).

(** A literal of the source. *)
Definition u (s : string) : unicode := N_of_ascii <$> list_ascii_of_string s.

(** The exceptions the three files raise or let through. *)
Inductive exn : Type :=
  | ValueError (msg : string)
  | TypeError
  | AttributeError
  | IndexError
  | KeyError (key : string)
  (* subliminal.exceptions *)
  | ProviderError (msg : unicode)
  (* opensubtitles.py *)
  | OpenSubtitlesError (status : unicode)
  | Unauthorized
  | NoSession
  | DownloadLimitReached
  | InvalidImdbid
  | UnknownUserAgent
  | DisabledUserAgent
  | ServiceUnavailable
  (* babelfish *)
  | LanguageReverseError.

Inductive outcome (A : Type) : Type :=
  | Ok (a : A)
  | Raise (e : exn).
Arguments Ok {A} a.
Arguments Raise {A} e.

(** Sequencing: the first exception raised ends the computation. *)
Definition bind {A B : Type} (m : outcome A) (f : A -> outcome B) : outcome B :=
  match m with
  | Ok a => f a
  | Raise e => Raise e
  end.

Declare Scope outcome_scope.
Delimit Scope outcome_scope with outcome.
Bind Scope outcome_scope with outcome.
Notation "x <- m ;; k" := (bind m (fun x => k))
  (at level 100, m at next level, right associativity) : outcome_scope.

(** A value stored in a [dict] that crosses the XML-RPC boundary. *)
#[local] Unset Elimination Schemes.
Inductive value : Type :=
  | VNone
  | VInt (n : Z)
  | VStr (s : unicode)
  | VList (items : list value)
  | VDict (items : list (string * value)).
#[local] Set Elimination Schemes.

(** [str(n)] and ['%d' % n] *)
Definition str (n : Z) : unicode := u (pretty n).

Definition ascii_lower (c : N) : N :=
  if ((65 <=? c) && (c <=? 90))%N then (c + 32)%N else c.

(** [s.lower()], with the lower-case mapping of the code points above 127
    left to the interpreter's tables. *)
Definition lower_with (unicode_lower : N -> N) (s : unicode) : unicode :=
  (fun c => if (c <? 128)%N then ascii_lower c else unicode_lower c) <$> s.

Fixpoint startswith (s prefix : unicode) {struct prefix} : bool :=
  match prefix, s with
  | [], _ => true
  | _ :: _, [] => false
  | a :: prefix', b :: s' => bool_decide (a = b) && startswith s' prefix'
  end.

(** [sub in s] *)
Fixpoint contains (s sub : unicode) : bool :=
  startswith s sub ||
  match s with
  | [] => false
  | _ :: s' => contains s' sub
  end.

(** [bool(s)] for a string or [None] *)
Definition truthy (s : option unicode) : bool :=
  match s with
  | Some (_ :: _) => true
  | _ => false
  end.

(** [sep.join(parts)] *)
Fixpoint join (sep : unicode) (parts : list unicode) : unicode :=
  match parts with
  | [] => []
  | [p] => p
  | p :: rest => p ++ sep ++ join sep rest
  end.

End Py.

Export Py.
Open Scope outcome_scope.

(** ** subliminal.video, as far as the providers read it *)

Module Episode.
Record t : Type := mk {
  name : unicode;
  release_group : option unicode;
  resolution : option unicode;
  format : option unicode;
  video_codec : option unicode;
  audio_codec : option unicode;
  hashes : gmap string unicode;
  size : option Z;
  imdb_id : option Z;
  series : option unicode;
  season : option Z;
  episode : option Z;
  title : option unicode;
  year : option Z;
  tvdb_id : option Z
}.
End Episode.

Module Movie.
Record t : Type := mk {
  name : unicode;
  release_group : option unicode;
  resolution : option unicode;
  format : option unicode;
  video_codec : option unicode;
  audio_codec : option unicode;
  hashes : gmap string unicode;
  size : option Z;
  imdb_id : option Z;
  title : option unicode;
  year : option Z
}.
End Movie.

Module Video.

(** [isinstance(video, Episode)] and [isinstance(video, Movie)] *)
Inductive t : Type :=
  | IsEpisode (e : Episode.t)
  | IsMovie (m : Movie.t).

Definition is_episode (video : t) : bool :=
  match video with IsEpisode _ => true | IsMovie _ => false end.

Definition is_movie (video : t) : bool :=
  match video with IsEpisode _ => false | IsMovie _ => true end.

(** Attributes of every video. *)
Definition hashes (video : t) : gmap string unicode :=
  match video with IsEpisode e => Episode.hashes e | IsMovie m => Movie.hashes m end.

Definition imdb_id (video : t) : option Z :=
  match video with IsEpisode e => Episode.imdb_id e | IsMovie m => Movie.imdb_id m end.

Definition title (video : t) : option unicode :=
  match video with IsEpisode e => Episode.title e | IsMovie m => Movie.title m end.

Definition year (video : t) : option Z :=
  match video with IsEpisode e => Episode.year e | IsMovie m => Movie.year m end.

Definition release_group (video : t) : option unicode :=
  match video with
  | IsEpisode e => Episode.release_group e
  | IsMovie m => Movie.release_group m
  end.

Definition resolution (video : t) : option unicode :=
  match video with IsEpisode e => Episode.resolution e | IsMovie m => Movie.resolution m end.

Definition format (video : t) : option unicode :=
  match video with IsEpisode e => Episode.format e | IsMovie m => Movie.format m end.

Definition name (video : t) : unicode :=
  match video with IsEpisode e => Episode.name e | IsMovie m => Movie.name m end.

Definition size (video : t) : option Z :=
  match video with IsEpisode e => Episode.size e | IsMovie m => Movie.size m end.

(** Attributes of an episode only: reading them on a movie raises. *)
Definition series (video : t) : outcome (option unicode) :=
  match video with IsEpisode e => Ok (Episode.series e) | IsMovie _ => Raise AttributeError end.

Definition season (video : t) : outcome (option Z) :=
  match video with IsEpisode e => Ok (Episode.season e) | IsMovie _ => Raise AttributeError end.

Definition episode (video : t) : outcome (option Z) :=
  match video with IsEpisode e => Ok (Episode.episode e) | IsMovie _ => Raise AttributeError end.

End Video.

(** A tag of a [bs4] soup: its [.string] and the [href] of its first
    anchor, [None] when it has no anchor. *)
Module Tag.
Record t : Type := mk {
  string : option unicode;
  a_href : option unicode
}.
End Tag.

(** [babelfish.Language] *)
Record Language : Type := mkLanguage {
  alpha3 : string;
  country : option string
}.

#[global] Instance Language_eq_dec : EqDecision Language.
Proof. solve_decision. Defined.

(** ** What the three files call and do not define *)

Class Collaborators : Type := {
  (** the interpreter: [int(s)] of a string, [None] for [ValueError];
      the lower-case mapping and the compatibility decomposition (NFKD) of
      a code point above 127 *)
  int_of_unicode : unicode -> option Z;
  unicode_lower : N -> N;
  nfkd : N -> unicode;
  (** babelfish *)
  fromaddic7ed : unicode -> outcome Language;
  opensubtitles : Language -> unicode;
  (** subliminal/subtitle.py *)
  hmg : option unicode -> outcome unicode;
  rm_par : unicode -> unicode;
  compute_guess_properties_matches :
    Video.t -> option unicode -> string -> outcome (gset Score.symbol);
  Guess : Type;
  compute_guess_matches : Video.t -> Guess -> outcome (gset Score.symbol);
  (** guessit *)
  guess_episode_info : unicode -> outcome Guess;
  guess_movie_info : unicode -> outcome Guess;
  (** what [Addic7edProvider.get] and the selections on its soup give:
      the anchors of the shows page (their [.string] and [href]), the
      [href]s suggested by a search, and the [epeven completed] rows of
      the page at a link, each the list of its [td] cells *)
  shows_page : outcome (list (option unicode * unicode));
  search_page : unicode -> outcome (list unicode);
  season_page : unicode -> outcome (list (list Tag.t))
}.

(** [int(s)] *)
Definition int `{Collaborators} (s : unicode) : outcome Z :=
  match int_of_unicode s with
  | Some n => Ok n
  | None => Raise (ValueError "invalid literal for int()")
  end.

(** [s.lower()] *)
Definition lower `{Collaborators} (s : unicode) : unicode :=
  lower_with unicode_lower s.

(** [if cond: matches.add(a)] *)
Definition add_if (cond : bool) (a : Score.symbol) (matches : gset Score.symbol)
    : gset Score.symbol :=
  if cond then matches ∪ {[a]} else matches.

(** [hmg(a) == hmg(b)] *)
Definition hmg_eq `{Collaborators} (a b : option unicode) : outcome bool :=
  x <- hmg a;; y <- hmg b;; Ok (bool_decide (x = y)).

(** [hmg(a) == hmg(b)] holds *)
Definition hmg_same `{Collaborators} (a b : option unicode) : Prop :=
  exists x, hmg a = Ok x /\ hmg b = Ok x.

(** ** addic7ed.py *)

(** [unicodedata.normalize('NFKD', s)], up to the order of combining marks:
    reordering moves no code point below 128, and [clean_series] keeps only
    those. *)
Definition normalize_NFKD `{Collaborators} (s : unicode) : unicode :=
  flat_map (fun c => if (c <? 128)%N then [c] else nfkd c) s.

(** [s.encode('ascii', 'ignore')] *)
Definition encode_ascii_ignore (s : unicode) : unicode :=
  filter (fun c => (c < 128)%N) s.

(** [re.sub('&', 'and', s)] *)
Definition sub_ampersand (s : unicode) : unicode :=
  flat_map (fun c => if (c =? 38)%N then u "and" else [c]) s.

(** [re.sub(r"[?!.',/:-]+", '', s)]: every run of the eight characters
    goes, so every one of them goes. *)
Definition sub_symbols (s : unicode) : unicode :=
  filter (fun c => c ∉ u "?!.',/:-") s.

(** [re.sub('[ ]{2,}', ' ', s)]: of a run of spaces only the last stays. *)
Fixpoint sub_spaces (s : unicode) : unicode :=
  match s with
  | [] => []
  | c :: s' =>
      match s' with
      | c' :: _ =>
          if ((c =? 32) && (c' =? 32))%N then sub_spaces s' else c :: sub_spaces s'
      | [] => [c]
      end
  end.

Definition clean_series `{Collaborators} (series_str : unicode) : unicode :=
  let filtered_str := encode_ascii_ignore (normalize_NFKD series_str) in
  lower (sub_spaces (sub_symbols (sub_ampersand filtered_str))).

(** What a character of a cleaned name is: ASCII, its own lower case, not
    the ampersand and none of the eight symbols; and a cleaned name: such
    characters, no two spaces in a row. *)
Definition clean_char (c : N) : Prop :=
  (c < 128)%N /\ ascii_lower c = c /\ c ≠ 38%N /\ c ∉ u "?!.',/:-".

Definition cleaned (t : unicode) : Prop :=
  Forall clean_char t /\ contains t (u "  ") = false.

Module Addic7edSubtitle.

Record t : Type := mk {
  language : Language;
  series : option unicode;
  season : option Z;
  episode : option Z;
  title : option unicode;
  year : option Z;
  version : option unicode;
  hearing_impaired : bool;
  download_link : unicode;
  page_link : unicode
}.

Section Methods.
Context `{Collaborators}.

(** [prop is not None and self.version is not None and
     prop.lower() in self.version.lower()] *)
Definition in_version (self : t) (prop : option unicode) : bool :=
  match prop, version self with
  | Some p, Some v => contains (lower v) (lower p)
  | _, _ => false
  end.

Definition compute_matches (self : t) (video : Video.t) : outcome (gset Score.symbol) :=
  let matches : gset Score.symbol := ∅ in
  (* series *)
  video_series <- Video.series video;;
  same <- match video_series with
         | Some _ => hmg_eq video_series (series self)
         | None => Ok false
         end;;
  let matches := add_if same Score.series matches in
  (* season *)
  video_season <- Video.season video;;
  let matches :=
    add_if (bool_decide (video_season ≠ None) && bool_decide (season self = video_season))
      Score.season matches in
  (* episode *)
  video_episode <- Video.episode video;;
  let matches :=
    add_if (bool_decide (video_episode ≠ None) && bool_decide (episode self = video_episode))
      Score.episode matches in
  (* title *)
  same <- match Video.title video with
         | Some _ => hmg_eq (Video.title video) (title self)
         | None => Ok false
         end;;
  let matches := add_if same Score.title matches in
  (* year *)
  let matches := add_if (bool_decide (year self = Video.year video)) Score.year matches in
  (* release_group *)
  let matches :=
    add_if (in_version self (Video.release_group video)) Score.release_group matches in
  (* resolution *)
  let matches := add_if (in_version self (Video.resolution video)) Score.resolution matches in
  (* format *)
  let matches := add_if (in_version self (Video.format video)) Score.format matches in
  (* guess resolution (screenSize in guessit) *)
  guessed <- compute_guess_properties_matches video (version self) "screenSize";;
  let matches := matches ∪ guessed in
  (* guess format *)
  guessed <- compute_guess_properties_matches video (version self) "format";;
  let matches := matches ∪ guessed in
  Ok matches.

(** What [compute_matches] itself compares for an attribute, guesses
    aside. *)
Definition compared (self : t) (e : Episode.t) (a : Score.symbol) : Prop :=
  match a with
  | Score.series =>
      exists s, Episode.series e = Some s /\ hmg_same (Some s) (series self)
  | Score.season =>
      exists n, Episode.season e = Some n /\ season self = Some n
  | Score.episode =>
      exists n, Episode.episode e = Some n /\ episode self = Some n
  | Score.title =>
      exists s, Episode.title e = Some s /\ hmg_same (Some s) (title self)
  | Score.year => year self = Episode.year e
  | Score.release_group =>
      exists p v, Episode.release_group e = Some p /\ version self = Some v
                  /\ contains (lower v) (lower p) = true
  | Score.resolution =>
      exists p v, Episode.resolution e = Some p /\ version self = Some v
                  /\ contains (lower v) (lower p) = true
  | Score.format =>
      exists p v, Episode.format e = Some p /\ version self = Some v
                  /\ contains (lower v) (lower p) = true
  | _ => False
  end.

(** What the two guesses at the end of it add. *)
Definition guessed (self : t) (video : Video.t) : outcome (gset Score.symbol) :=
  screen_size <- compute_guess_properties_matches video (version self) "screenSize";;
  format <- compute_guess_properties_matches video (version self) "format";;
  Ok (screen_size ∪ format).

End Methods.
End Addic7edSubtitle.

Module Addic7edProvider.

Definition server : unicode := u "http://www.addic7ed.com".

(** What [query] asks while it resolves a series, in the order it asks:
    a key looked up in the show index, a search sent to the server. *)
Inductive event : Type :=
  | InShowIds (key : unicode)
  | FindShowId (series : unicode).

#[global] Instance event_eq_dec : EqDecision event.
Proof. solve_decision. Defined.

(** A computation that asks along the way. *)
Record traced (A : Type) : Type := Traced {
  events : list event;
  result : outcome A
}.
Arguments Traced {A} events result.
Arguments events {A} t.
Arguments result {A} t.

Definition tbind {A B : Type} (m : traced A) (f : A -> traced B) : traced B :=
  match result m with
  | Ok a => Traced (events m ++ events (f a)) (result (f a))
  | Raise e => Traced (events m) (Raise e)
  end.

Declare Scope traced_scope.
Delimit Scope traced_scope with traced.
Bind Scope traced_scope with traced.
Notation "x <- m ;; k" := (tbind m (fun x => k))
  (at level 100, m at next level, right associativity) : traced_scope.

Definition lift {A : Type} (o : outcome A) : traced A := Traced [] o.
Definition pure {A : Type} (a : A) : traced A := Traced [] (Ok a).

Section Methods.
Context `{Collaborators}.

(** [cells[i]] *)
Definition index {A : Type} (l : list A) (i : nat) : outcome A :=
  match l !! i with
  | Some x => Ok x
  | None => Raise IndexError
  end.

(** The loop of [get_show_ids] over the anchors of the shows page. *)
Fixpoint get_show_ids_loop (anchors : list (option unicode * unicode))
    (show_ids : gmap unicode Z) : outcome (gmap unicode Z) :=
  match anchors with
  | [] => Ok show_ids
  | (show_str, href) :: rest =>
      show_code <- int (drop 6 href);;
      match show_str with
      | None => Raise AttributeError
      | Some show_str =>
          let show_ids := <[lower show_str := show_code]> show_ids in
          let show_ids := <[clean_series show_str := show_code]> show_ids in
          get_show_ids_loop rest show_ids
      end
  end.

Definition get_show_ids : outcome (gmap unicode Z) :=
  anchors <- shows_page;;
  get_show_ids_loop anchors ∅.

Definition find_show_id (series : unicode) (year : option Z) : outcome (option Z) :=
  let series_year :=
    match year with
    | Some y => series ++ u " (" ++ str y ++ u ")"
    | None => series
    end in
  suggested_shows <- search_page series_year;;
  match suggested_shows with
  | [] => Ok None
  | href :: _ => show_id <- int (drop 6 href);; Ok (Some show_id)
  end.

(** [key in show_ids], then [show_ids[key]] *)
Definition in_show_ids (show_ids : gmap unicode Z) (key : unicode) : traced (option Z) :=
  Traced [InShowIds key] (Ok (show_ids !! key)).

(** [self.find_show_id(series)] *)
Definition search (series : unicode) : traced (option Z) :=
  Traced [FindShowId series] (find_show_id series None).

(** The block [query] runs on each form of the name (it stands three
    times in the source): the form and its cleaned form in the show index,
    then the two on the server. It leaves [show_id] and [sub_series];
    [None] is [show_id is None], after which [sub_series] is not read. *)
Definition look_up (show_ids : gmap unicode Z) (series_fix : unicode)
    : traced (option (Z * unicode)) :=
  let series_clean := clean_series series_fix in
  (hit <- in_show_ids show_ids series_fix;;
   match hit with
   | Some show_id => pure (Some (show_id, series_fix))
   | None =>
       hit <- in_show_ids show_ids series_clean;;
       match hit with
       | Some show_id => pure (Some (show_id, series_clean))
       | None =>  (* fallback to searching addic7ed server *)
           show_id <- search series_fix;;
           match show_id with
           | Some show_id => pure (Some (show_id, series_fix))
           | None =>
               show_id <- search series_clean;;
               pure ((fun show_id => (show_id, series_clean)) <$> show_id)
           end
       end
   end)%traced.

(** Lines 173-228 of [query]: [Some (show_id, sub_series, sub_year)], or
    [None] where [query] returns the empty list. *)
Definition query_show_id (show_ids : gmap unicode Z) (series : unicode) (year : option Z)
    : traced (option (Z * unicode * option Z)) :=
  (found <- match year with
            | Some y =>  (* search with the year *)
                (* before appending year, remove existing (...) , eg. (US) *)
                let series_fix := rm_par (lower series) ++ u " (" ++ str y ++ u ")" in
                found <- look_up show_ids series_fix;;
                pure ((fun '(show_id, sub_series) => (show_id, sub_series, Some y))
                        <$> found)
            | None => pure None
            end;;
   match found with
   | Some found => pure (Some found)
   | None =>  (* if found nothing, try without year *)
       let series_fix := lower series in
       found <- look_up show_ids series_fix;;
       match found with
       | Some (show_id, sub_series) => pure (Some (show_id, sub_series, None))
       | None =>  (* if found nothing, try removing (...) *)
           let series_fix := rm_par (lower series) in
           (* give up if no (...) in series *)
           if decide (series_fix = lower series) then pure None
           else
             found <- look_up show_ids series_fix;;
             pure ((fun '(show_id, sub_series) => (show_id, sub_series, None)) <$> found)
       end
   end)%traced.

(** The fallback order in the words of the spec: the attempts on one form
    of the name, each with the year a subtitle gets when it succeeds, and
    the whole plan of a query. *)
Definition attempts (series_fix : unicode) (sub_year : option Z)
    : list (event * option Z) :=
  [ (InShowIds series_fix, sub_year);
    (InShowIds (clean_series series_fix), sub_year);
    (FindShowId series_fix, sub_year);
    (FindShowId (clean_series series_fix), sub_year) ].

Definition plan (series : unicode) (year : option Z) : list (event * option Z) :=
  match year with
  | Some y => attempts (rm_par (lower series) ++ u " (" ++ str y ++ u ")") (Some y)
  | None => []
  end
  ++ attempts (lower series) None
  ++ (if decide (rm_par (lower series) = lower series) then []
      else attempts (rm_par (lower series)) None).

Definition key (e : event) : unicode :=
  match e with
  | InShowIds key => key
  | FindShowId series => series
  end.

Definition ask (show_ids : gmap unicode Z) (e : event) : traced (option Z) :=
  match e with
  | InShowIds key => in_show_ids show_ids key
  | FindShowId series => search series
  end.

(** Going down a plan, stopping at the first success. *)
Fixpoint first_success (show_ids : gmap unicode Z) (plan : list (event * option Z))
    : traced (option (Z * unicode * option Z)) :=
  match plan with
  | [] => pure None
  | (e, sub_year) :: rest =>
      (hit <- ask show_ids e;;
       match hit with
       | Some show_id => pure (Some (show_id, key e, sub_year))
       | None => first_success show_ids rest
       end)%traced
  end.

(** One turn of the loop over the rows: the subtitle appended, or [None]
    where the loop [continue]s. *)
Definition query_row (languages : list Language) (episode : option Z)
    (sub_series : unicode) (sub_year : option Z) (cells : list Tag.t)
    : outcome (option Addic7edSubtitle.t) :=
  cell <- index cells 5;;
  let sub_status := Tag.string cell in
  if bool_decide (sub_status ≠ Some (u "Completed")) then Ok None else
  cell <- index cells 3;;
  let sub_language_str := Tag.string cell in
  match sub_language_str with
  | None | Some [] => Ok None
  | Some sub_language_str =>
      sub_language <- fromaddic7ed sub_language_str;;
      cell <- index cells 0;;
      let sub_season_str := Tag.string cell in
      cell <- index cells 1;;
      let sub_episode_str := Tag.string cell in
      match sub_season_str, sub_episode_str with
      | Some sub_season_str, Some sub_episode_str =>
          sub_season <- int sub_season_str;;
          sub_episode <- int sub_episode_str;;
          if bool_decide (Some sub_episode ≠ episode)
             || bool_decide (sub_language ∉ languages)
          then Ok None else
          title_cell <- index cells 2;;
          let sub_title := Tag.string title_cell in
          cell <- index cells 4;;
          let sub_version := Tag.string cell in
          cell <- index cells 6;;
          let sub_hearing_impaired := truthy (Tag.string cell) in
          cell <- index cells 7;;
          let sub_corrected := truthy (Tag.string cell) in
          cell <- index cells 8;;
          let sub_hd := truthy (Tag.string cell) in
          cell <- index cells 9;;
          match Tag.a_href cell, Tag.a_href title_cell with
          | Some sub_download_link, Some href =>
              let sub_page_link := server ++ href in
              Ok (Some (Addic7edSubtitle.mk sub_language (Some sub_series)
                            (Some sub_season) (Some sub_episode) sub_title sub_year
                            sub_version sub_hearing_impaired sub_download_link
                            sub_page_link))
          | _, _ => Raise TypeError
          end
      | _, _ => Ok None
      end
  end.

Fixpoint query_rows (languages : list Language) (episode : option Z)
    (sub_series : unicode) (sub_year : option Z) (rows : list (list Tag.t))
    (subtitles : list Addic7edSubtitle.t) : outcome (list Addic7edSubtitle.t) :=
  match rows with
  | [] => Ok subtitles
  | row :: rest =>
      appended <- query_row languages episode sub_series sub_year row;;
      query_rows languages episode sub_series sub_year rest
        (match appended with
         | Some subtitle => subtitles ++ [subtitle]
         | None => subtitles
         end)
  end.

(** What a row must be for [query] to keep it as [subtitle]. *)
Definition kept (languages : list Language) (episode : option Z) (cells : list Tag.t)
    (subtitle : Addic7edSubtitle.t) : Prop :=
  exists (status language : Tag.t) (sub_language_str : unicode),
    cells !! 5 = Some status /\
    Tag.string status = Some (u "Completed") /\
    cells !! 3 = Some language /\
    Tag.string language = Some sub_language_str /\
    sub_language_str ≠ [] /\
    fromaddic7ed sub_language_str = Ok (Addic7edSubtitle.language subtitle) /\
    Addic7edSubtitle.language subtitle ∈ languages /\
    Addic7edSubtitle.episode subtitle = episode /\
    is_Some episode.

(** ['{season}'.format(season=season)] *)
Definition format_season (season : option Z) : unicode :=
  match season with
  | Some n => str n
  | None => u "None"
  end.

Definition query (languages : list Language) (series : unicode) (season episode : option Z)
    (year : option Z) : traced (list Addic7edSubtitle.t) :=
  (show_ids <- lift get_show_ids;;
   found <- query_show_id show_ids series year;;
   match found with
   | None => pure []
   | Some (show_id, sub_series, sub_year) =>
       let link := u "/show/" ++ str show_id ++ u "&season=" ++ format_season season in
       rows <- lift (season_page link);;
       lift (query_rows languages episode sub_series sub_year rows [])
   end)%traced.

(** The arguments are read off the video before [query] runs; a series
    that is [None] fails at [series.lower()], the first use [query] makes
    of it, after it has loaded the show index. *)
Definition list_subtitles (video : Video.t) (languages : list Language)
    : traced (list Addic7edSubtitle.t) :=
  (series <- lift (Video.series video);;
   season <- lift (Video.season video);;
   episode <- lift (Video.episode video);;
   let year := Video.year video in
   match series with
   | Some series => query languages series season episode year
   | None => _ <- lift get_show_ids;; lift (Raise AttributeError)
   end)%traced.

End Methods.

(** *** The session: [__init__], [initialize] and [terminate] *)

(** The provider object: the attributes the three methods set and read;
    [session] tells whether [self.session] is set. *)
Record t : Type := mk {
  username : option unicode;
  password : option unicode;
  logged_in : bool;
  session : bool
}.

(** What crosses [self.session]. *)
Inductive request : Type :=
  | Post (url : unicode) (data : gmap string unicode)
  | Get (url : unicode)
  | Close.

#[global] Instance request_eq_dec : EqDecision request.
Proof. solve_decision. Defined.

(** What the three methods raise: two exceptions of
    [subliminal.exceptions] of their own, and what comes from below. *)
Inductive raised : Type :=
  | ConfigurationError (msg : string)
  | AuthenticationError (username : option unicode)
  | Propagated (e : exn).

(** A run of a method: the requests it made, in order, the provider as it
    leaves it, and the exception it ended with, if any. *)
Record run : Type := Run {
  requests : list request;
  after : t;
  ended : option raised
}.

(** [requests.Session]: the status code of the response to a POST and to
    a GET, or what the request raises. *)
Class Session : Type := {
  session_post : unicode -> gmap string unicode -> outcome Z;
  session_get : unicode -> outcome Z
}.


(** ['Request failed with status code %d' % r.status_code] *)
Definition request_failed (status_code : Z) : exn :=
  ProviderError (u "Request failed with status code " ++ str status_code).

Section SessionMethods.
Context `{Session}.

Definition initialize (self : t) : run :=
  let self := mk (username self) (password self) (logged_in self) true in
  (* login, unless username and password are both None *)
  match username self, password self with
  | Some user, Some pass =>
      let data : gmap string unicode :=
        <["username" := user]> (<["password" := pass]> {["Submit" := u "Log in"]}) in
      let url := server ++ u "/dologin.php" in
      match session_post url data with
      | Ok status_code =>
          if (status_code =? 302)%Z
          then Run [Post url data] (mk (username self) (password self) true true) None
          else Run [Post url data] self (Some (AuthenticationError (username self)))
      | Raise e => Run [Post url data] self (Some (Propagated e))
      end
  | _, _ => Run [] self None
  end.

Definition terminate (self : t) : run :=
  (* [self.session] of an object that has none *)
  if negb (session self) then Run [] self (Some (Propagated AttributeError)) else
  (* logout *)
  if logged_in self then
    let url := server ++ u "/logout.php" in
    match session_get url with
    | Ok status_code =>
        if negb (status_code =? 200)%Z
        then Run [Get url] self (Some (Propagated (request_failed status_code)))
        else Run [Get url; Close] self None
    | Raise e => Run [Get url] self (Some (Propagated e))
    end
  else Run [Close] self None.

End SessionMethods.

End Addic7edProvider.

(** ** opensubtitles.py *)

Module OpenSubtitlesSubtitle.

Record t : Type := mk {
  language : Language;
  hearing_impaired : bool;
  id : unicode;
  matched_by : unicode;
  movie_kind : option unicode;
  hash : option unicode;
  movie_name : option unicode;
  movie_release_name : option unicode;
  movie_year : option Z;
  movie_imdb_id : option Z;
  series_season : option Z;
  series_episode : option Z;
  page_link : unicode
}.

Definition newline : N := 10.

(** The group [series_title] of [series_re] and the [$] after it, on what
    follows the quote and the space: the dot takes no newline, [$] stands
    at the end or before a last newline. *)
Definition series_re_title (rest : unicode) : option unicode :=
  if bool_decide (newline ∉ rest) then Some rest
  else
    match reverse rest with
    | c :: r =>
        if bool_decide (c = newline) && bool_decide (newline ∉ r)
        then Some (reverse r) else None
    | [] => None
    end.

(** [series_re] after its opening quote: the group [series_name], a quote
    and a space, the group [series_title]. The first group is greedy, so
    the last quote and space that leave a match split the name. *)
Fixpoint series_re_groups (s : unicode) : option (unicode * unicode) :=
  match s with
  | [] => None
  | c :: s' =>
      match series_re_groups s' with
      | Some (series_name, series_title) =>
          if bool_decide (c = newline) then None
          else Some (c :: series_name, series_title)
      | None =>
          match s with
          | 34%N :: 32%N :: rest => (fun series_title => ([], series_title)) <$> series_re_title rest
          | _ => None
          end
      end
  end.

(** [series_re.match(s)] and its two groups *)
Definition series_re_match (s : unicode) : option (unicode * unicode) :=
  match s with
  | 34%N :: s' => series_re_groups s'
  | _ => None
  end.

(** [series_re.match(self.movie_name).group(...)] *)
Definition series_re_group (self : t) : outcome (unicode * unicode) :=
  match movie_name self with
  | None => Raise TypeError
  | Some movie_name =>
      match series_re_match movie_name with
      | Some groups => Ok groups
      | None => Raise AttributeError
      end
  end.

Definition series_name (self : t) : outcome unicode :=
  groups <- series_re_group self;; Ok (fst groups).

Definition series_title (self : t) : outcome unicode :=
  groups <- series_re_group self;; Ok (snd groups).

Section Methods.
Context `{Collaborators}.

(** [self.movie_release_name + '.mkv'] *)
Definition release_file (self : t) : outcome unicode :=
  match movie_release_name self with
  | Some movie_release_name => Ok (movie_release_name ++ u ".mkv")
  | None => Raise TypeError
  end.

Definition compute_matches (self : t) (video : Video.t) : outcome (gset Score.symbol) :=
  let matches : gset Score.symbol := ∅ in
  (* hash *)
  let matches :=
    add_if match Video.hashes video !! "opensubtitles" with
           | Some video_hash => bool_decide (hash self = Some video_hash)
           | None => false
           end Score.hash matches in
  (* imdb_id *)
  let matches :=
    add_if (bool_decide (Video.imdb_id video ≠ None)
            && bool_decide (Video.imdb_id video = movie_imdb_id self))
      Score.imdb_id matches in
  (* Episode *)
  if Video.is_episode video && bool_decide (movie_kind self = Some (u "episode")) then
    (* series *)
    video_series <- Video.series video;;
    same <- match video_series with
            | Some _ =>
                x <- hmg video_series;;
                name <- series_name self;;
                y <- hmg (Some name);;
                Ok (bool_decide (x = y))
            | None => Ok false
            end;;
    let matches := add_if same Score.series matches in
    (* season number *)
    video_season <- Video.season video;;
    let matches :=
      add_if (bool_decide (video_season ≠ None)
              && bool_decide (video_season = series_season self))
        Score.season matches in
    (* episode number *)
    video_episode <- Video.episode video;;
    let matches :=
      add_if (bool_decide (video_episode ≠ None)
              && bool_decide (video_episode = series_episode self))
        Score.episode matches in
    (* title *)
    same <- match Video.title video with
            | Some _ =>
                x <- hmg (Video.title video);;
                name <- series_title self;;
                y <- hmg (Some name);;
                Ok (bool_decide (x = y))
            | None => Ok false
            end;;
    let matches := add_if same Score.title matches in
    (* guess *)
    file <- release_file self;;
    guess <- guess_episode_info file;;
    guessed <- compute_guess_matches video guess;;
    Ok (matches ∪ guessed)
  (* Movie *)
  else if Video.is_movie video && bool_decide (movie_kind self = Some (u "movie")) then
    (* title *)
    same <- match Video.title video with
            | Some _ => hmg_eq (Video.title video) (movie_name self)
            | None => Ok false
            end;;
    let matches := add_if same Score.title matches in
    (* year *)
    let matches :=
      add_if (bool_decide (Video.year video ≠ None)
              && bool_decide (Video.year video = movie_year self))
        Score.year matches in
    (* guess *)
    file <- release_file self;;
    guess <- guess_movie_info file;;
    guessed <- compute_guess_matches video guess;;
    Ok (matches ∪ guessed)
  else
    Ok matches.

(** The candidate's reported kind agrees with the kind of the video. *)
Definition kinds_agree (self : t) (video : Video.t) : Prop :=
  (Video.is_episode video = true /\ movie_kind self = Some (u "episode")) \/
  (Video.is_movie video = true /\ movie_kind self = Some (u "movie")).

(** What [compute_matches] itself compares for an attribute, guesses
    aside. *)
Definition compared (self : t) (video : Video.t) (a : Score.symbol) : Prop :=
  let as_episode :=
    Video.is_episode video = true /\ movie_kind self = Some (u "episode") in
  let as_movie :=
    Video.is_movie video = true /\ movie_kind self = Some (u "movie") in
  match a with
  | Score.hash =>
      exists h, Video.hashes video !! "opensubtitles" = Some h /\ hash self = Some h
  | Score.imdb_id =>
      exists n, Video.imdb_id video = Some n /\ movie_imdb_id self = Some n
  | Score.series =>
      as_episode /\
      exists s name, Video.series video = Ok (Some s)
                     /\ series_name self = Ok name
                     /\ hmg_same (Some s) (Some name)
  | Score.season =>
      as_episode /\
      exists n, Video.season video = Ok (Some n) /\ series_season self = Some n
  | Score.episode =>
      as_episode /\
      exists n, Video.episode video = Ok (Some n) /\ series_episode self = Some n
  | Score.title =>
      (as_episode /\
       exists s name, Video.title video = Some s
                      /\ series_title self = Ok name
                      /\ hmg_same (Some s) (Some name)) \/
      (as_movie /\
       exists s, Video.title video = Some s /\ hmg_same (Some s) (movie_name self))
  | Score.year =>
      as_movie /\
      exists n, Video.year video = Some n /\ movie_year self = Some n
  | _ => False
  end.

(** What the guess of its branch adds. *)
Definition guessed (self : t) (video : Video.t) : outcome (gset Score.symbol) :=
  if Video.is_episode video && bool_decide (movie_kind self = Some (u "episode")) then
    file <- release_file self;;
    guess <- guess_episode_info file;;
    compute_guess_matches video guess
  else if Video.is_movie video && bool_decide (movie_kind self = Some (u "movie")) then
    file <- release_file self;;
    guess <- guess_movie_info file;;
    compute_guess_matches video guess
  else Ok ∅.

End Methods.
End OpenSubtitlesSubtitle.

Module OpenSubtitlesProvider.

Section Methods.
Context `{Collaborators}.

(** Lines 110-124 of [query]: the [searches] it hands to
    [SearchSubtitles], or the [ValueError] it raises before. *)
Definition query_searches (languages : list Language) (hash : option unicode)
    (size : option Z) (imdb_id : option Z) (query : option unicode)
    (season episode : option Z) : outcome (list (gmap string value)) :=
  let searches : list (gmap string value) := [] in
  let searches :=
    match hash, size with
    | Some hash, Some size =>
        searches ++ [ <["moviehash" := VStr hash]> {["moviebytesize" := VStr (str size)]} ]
    | _, _ => searches
    end in
  let searches :=
    match imdb_id with
    | Some imdb_id => searches ++ [ {["imdbid" := VInt imdb_id]} ]
    | None => searches
    end in
  let searches :=
    match query, season, episode with
    | Some query, Some season, Some episode =>
        searches ++ [ <["query" := VStr (rm_par query)]>
                        (<["season" := VInt season]> {["episode" := VInt episode]}) ]
    | Some query, _, _ => searches ++ [ {["query" := VStr query]} ]
    | None, _, _ => searches
    end in
  match searches with
  | [] => Raise (ValueError "One or more parameter missing")
  | _ =>
      let sublanguageid := join (u ",") (opensubtitles <$> languages) in
      Ok ((fun search => <["sublanguageid" := VStr sublanguageid]> search) <$> searches)
  end.

(** The three criteria in the words of the spec, each the list of the zero
    or one search it contributes. *)
Definition by_content_hash (hash : option unicode) (size : option Z)
    : list (gmap string value) :=
  match hash, size with
  | Some hash, Some size =>
      [ <["moviehash" := VStr hash]> {["moviebytesize" := VStr (str size)]} ]
  | _, _ => []
  end.

Definition by_external_id (imdb_id : option Z) : list (gmap string value) :=
  match imdb_id with
  | Some imdb_id => [ {["imdbid" := VInt imdb_id]} ]
  | None => []
  end.

Definition by_free_text (query : option unicode) (season episode : option Z)
    : list (gmap string value) :=
  match query with
  | Some query =>
      match season, episode with
      | Some season, Some episode =>
          [ <["query" := VStr (rm_par query)]>
              (<["season" := VInt season]> {["episode" := VInt episode]}) ]
      | _, _ => [ {["query" := VStr query]} ]
      end
  | None => []
  end.

End Methods.
End OpenSubtitlesProvider.

(** [response['status']] *)
Definition response_status (response : gmap string value) : outcome value :=
  match response !! "status" with
  | Some status => Ok status
  | None => Raise (KeyError "status")
  end.

(** [int(response['status'][:3])] *)
Definition status_code `{Collaborators} (response : gmap string value) : outcome Z :=
  status <- response_status response;;
  match status with
  | VStr s => int (take 3 s)
  | VList _ => Raise TypeError  (* int() of a list *)
  | VNone | VInt _ | VDict _ => Raise TypeError  (* no slice of these *)
  end.

Definition checked `{Collaborators} (response : gmap string value)
    : outcome (gmap string value) :=
  status_code <- status_code response;;
  if (status_code =? 401)%Z then Raise Unauthorized else
  if (status_code =? 406)%Z then Raise NoSession else
  if (status_code =? 407)%Z then Raise DownloadLimitReached else
  if (status_code =? 413)%Z then Raise InvalidImdbid else
  if (status_code =? 414)%Z then Raise UnknownUserAgent else
  if (status_code =? 415)%Z then Raise DisabledUserAgent else
  if (status_code =? 503)%Z then Raise ServiceUnavailable else
  if negb (status_code =? 200)%Z then
    status <- response_status response;;
    match status with
    | VStr status => Raise (OpenSubtitlesError status)
    | _ => Raise TypeError  (* not reached: [status_code] has read a string *)
    end
  else Ok response.

(** *** The methods of [OpenSubtitlesProvider] that call the server *)

(** [self.server], an XML-RPC proxy: the response of each method to its
    arguments, or what the call raises; and what else the methods use. *)
Class ServerProxy : Type := {
  LogIn : unicode -> unicode -> unicode -> unicode -> outcome (gmap string value);
  LogOut : value -> outcome (gmap string value);
  NoOperation : value -> outcome (gmap string value);
  SearchSubtitles : value -> list (gmap string value) -> outcome (gmap string value);
  (** [__version__.split('-')[0]] *)
  version : unicode;
  (** [babelfish.Language.fromopensubtitles] *)
  fromopensubtitles : value -> outcome Language
}.

(** [response[key]] *)
Definition getitem (response : gmap string value) (key : string) : outcome value :=
  match response !! key with
  | Some v => Ok v
  | None => Raise (KeyError key)
  end.

(** [rsp[key]] on what the server sent for a row: only a [dict] takes a
    string between the brackets. The items of a [dict] have distinct
    keys. *)
Definition subscript (rsp : value) (key : string) : outcome value :=
  match rsp with
  | VDict items => getitem (list_to_map items) key
  | VNone | VInt _ | VStr _ | VList _ => Raise TypeError
  end.

(** [not v] holds *)
Definition falsy (v : value) : bool :=
  match v with
  | VNone => true
  | VInt n => (n =? 0)%Z
  | VStr s => bool_decide (s = [])
  | VList items => bool_decide (items = [])
  | VDict items => bool_decide (items = [])
  end.

(** [int(v)] *)
Definition int_value `{Collaborators} (v : value) : outcome Z :=
  match v with
  | VInt n => Ok n
  | VStr s => int s
  | VNone | VList _ | VDict _ => Raise TypeError
  end.

(** [int(v) if v is not None else None] *)
Definition int_or_None `{Collaborators} (v : value) : outcome (option Z) :=
  match v with
  | VNone => Ok None
  | _ => n <- int_value v;; Ok (Some n)
  end.

Module OpenSubtitlesCalls.

(** An [OpenSubtitlesSubtitle] as [query] builds it: what the row holds
    under a key is stored as it came. *)
Record subtitle : Type := Subtitle {
  language : Language;
  hearing_impaired : bool;
  id : value;
  matched_by : value;
  movie_kind : value;
  hash : value;
  movie_name : value;
  movie_release_name : value;
  movie_year : option Z;
  movie_imdb_id : option Z;
  series_season : option Z;
  series_episode : option Z;
  page_link : value
}.

(** The keys the debug line reads from a row, in the order it reads
    them. *)
Definition logged_keys : list string :=
  [ "SubAddDate"; "SubLanguageID"; "SubHearingImpaired"; "MatchedBy"; "MovieKind";
    "MovieHash"; "MovieName"; "MovieReleaseName"; "MovieYear"; "MovieFPS";
    "IDMovieImdb"; "SeriesIMDBParent"; "SeriesSeason"; "SeriesEpisode" ].

Section Methods.
Context `{Collaborators} `{ServerProxy}.

Definition initialize : outcome value :=
  response <- LogIn [] [] (u "eng") (u "subliminal v" ++ version);;
  response <- checked response;;
  getitem response "token".

(** [Ok tt]: the session is closed. *)
Definition terminate (token : value) : outcome unit :=
  response <- LogOut token;;
  _ <- checked response;;
  Ok tt.

Definition no_operation (token : value) : outcome unit :=
  response <- NoOperation token;;
  _ <- checked response;;
  Ok tt.

(** The arguments of the debug line: each key is read, the values go to
    the log. *)
Fixpoint logged (rsp : value) (keys : list string) : outcome unit :=
  match keys with
  | [] => Ok tt
  | key :: keys => _ <- subscript rsp key;; logged rsp keys
  end.

(** One turn of the loop of [query]: the subtitle appended. *)
Definition query_subtitle (rsp : value) : outcome subtitle :=
  _ <- logged rsp logged_keys;;
  v <- subscript rsp "SubLanguageID";;
  language <- fromopensubtitles v;;
  v <- subscript rsp "SubHearingImpaired";;
  n <- int_value v;;
  let hearing_impaired := negb (n =? 0)%Z in
  id <- subscript rsp "IDSubtitleFile";;
  matched_by <- subscript rsp "MatchedBy";;
  movie_kind <- subscript rsp "MovieKind";;
  hash <- subscript rsp "MovieHash";;
  movie_name <- subscript rsp "MovieName";;
  movie_release_name <- subscript rsp "MovieReleaseName";;
  v <- subscript rsp "MovieYear";;
  movie_year <- int_or_None v;;
  v <- subscript rsp "IDMovieImdb";;
  movie_imdb_id <- int_or_None v;;
  v <- subscript rsp "SeriesSeason";;
  series_season <- int_or_None v;;
  v <- subscript rsp "SeriesEpisode";;
  series_episode <- int_or_None v;;
  page_link <- subscript rsp "SubtitlesLink";;
  Ok (Subtitle language hearing_impaired id matched_by movie_kind hash movie_name
        movie_release_name movie_year movie_imdb_id series_season series_episode
        page_link).

Fixpoint query_subtitles (data : list value) (subtitles : list subtitle)
    : outcome (list subtitle) :=
  match data with
  | [] => Ok subtitles
  | rsp :: rest =>
      appended <- query_subtitle rsp;;
      query_subtitles rest (subtitles ++ [appended])
  end.

(** [for rsp in data] where [data] is true: the items of a list; the
    characters of a string and the keys of a [dict] are strings, and the
    first [rsp[...]] on one raises, as does the loop over a number. *)
Definition iterate (data : value) : outcome (list value) :=
  match data with
  | VList items => Ok items
  | VNone | VInt _ | VStr _ | VDict _ => Raise TypeError
  end.

Definition query (token : value) (languages : list Language) (hash : option unicode)
    (size : option Z) (imdb_id : option Z) (query : option unicode)
    (season episode : option Z) : outcome (list subtitle) :=
  searches <- OpenSubtitlesProvider.query_searches languages hash size imdb_id query
                season episode;;
  response <- SearchSubtitles token searches;;
  response <- checked response;;
  data <- getitem response "data";;
  if falsy data then Ok [] else
  items <- iterate data;;
  query_subtitles items [].

(** [s.split(sep)[-1]]: what follows the last [sep]. *)
Fixpoint split_last (sep : N) (s : unicode) : unicode :=
  match s with
  | [] => []
  | c :: s' => if bool_decide (sep ∈ s') then split_last sep s'
               else if bool_decide (c = sep) then s' else s
  end.

(** [not n] for a number or [None] *)
Definition absent (n : option Z) : bool :=
  match n with
  | None | Some 0%Z => true
  | Some _ => false
  end.

(** What [list_subtitles] gives [query] as [query], [season] and
    [episode]; [sep] is [os.sep]. *)
Definition list_subtitles_arguments (sep : N) (video : Video.t)
    : option unicode * option Z * option Z :=
  let query : option unicode := None in
  let season : option Z := None in
  let episode : option Z := None in
  let query :=
    if (bool_decide (Video.hashes video !! "opensubtitles" = None)
        || absent (Video.size video))
       && absent (Video.imdb_id video)
    then Some (split_last sep (Video.name video))
    else query in
  let query := if Video.is_movie video then Video.title video else query in
  match video with
  | Video.IsEpisode e => (Episode.series e, Episode.season e, Episode.episode e)
  | Video.IsMovie _ => (query, season, episode)
  end.

Definition list_subtitles (sep : N) (token : value) (video : Video.t)
    (languages : list Language) : outcome (list subtitle) :=
  let '(text, season, episode) := list_subtitles_arguments sep video in
  query token languages (Video.hashes video !! "opensubtitles") (Video.size video)
    (Video.imdb_id video) text season episode.

End Methods.
End OpenSubtitlesCalls.

(** ** A model of the collaborators, to run the code on examples *)

Module Model.

Definition digit (c : N) : option Z :=
  if ((48 <=? c) && (c <=? 57))%N then Some (Z.of_N (c - 48)) else None.

Fixpoint digits (s : unicode) (acc : Z) : option Z :=
  match s with
  | [] => Some acc
  | c :: s' =>
      match digit c with
      | Some d => digits s' (10 * acc + d)%Z
      | None => None
      end
  end.

(** [int(s)] on an optional minus sign and decimal digits. *)
Definition int_of_unicode (s : unicode) : option Z :=
  match s with
  | [] => None
  | 45%N :: (_ :: _) as s' => Z.opp <$> digits s' 0
  | _ => digits s 0
  end.

Definition fromaddic7ed (s : unicode) : outcome Language :=
  if bool_decide (s = u "English") then Ok (mkLanguage "eng" None)
  else if bool_decide (s = u "French") then Ok (mkLanguage "fra" None)
  else if bool_decide (s = u "Portuguese (Brazilian)") then Ok (mkLanguage "por" (Some "BR"))
  else Raise LanguageReverseError.

Definition opensubtitles (l : Language) : unicode := u (alpha3 l).

(** Letters and digits only, in lower case; no [None]. *)
Definition hmg (s : option unicode) : outcome unicode :=
  match s with
  | Some s =>
      Ok (filter (fun c => (48 <= c <= 57)%N \/ (97 <= c <= 122)%N) (ascii_lower <$> s))
  | None => Raise AttributeError
  end.

Fixpoint after_parenthesis (s : unicode) : option unicode :=
  match s with
  | [] => None
  | c :: s' => if (c =? 41)%N then Some s' else after_parenthesis s'
  end.

Fixpoint rm_first_parenthesis (s : unicode) : unicode :=
  match s with
  | [] => []
  | c :: s' =>
      if (c =? 40)%N then
        match after_parenthesis s' with
        | Some rest => rest
        | None => c :: rm_first_parenthesis s'
        end
      else c :: rm_first_parenthesis s'
  end.

(** [s.rstrip(' ')] *)
Fixpoint rstrip (s : unicode) : unicode :=
  match s with
  | [] => []
  | c :: s' =>
      match rstrip s' with
      | [] => if (c =? 32)%N then [] else [c]
      | t => c :: t
      end
  end.

(** Modelled from the spec: [rm_par] is defined in
    [subliminal/subtitle.py], outside the three files. The spec and the
    comments of [query] have it strip a parenthesized qualifier such as
    "(US)"; this model takes the first one and the spaces left at the end. *)
Definition rm_par (s : unicode) : unicode := rstrip (rm_first_parenthesis s).

(** The collaborators, given what the addic7ed server serves. Nothing is
    guessed from release names. *)
Definition collaborators
    (shows_page : outcome (list (option unicode * unicode)))
    (search_page : unicode -> outcome (list unicode))
    (season_page : unicode -> outcome (list (list Tag.t))) : Collaborators :=
  Build_Collaborators
    int_of_unicode (fun c => c) (fun c => [c])
    fromaddic7ed opensubtitles
    hmg rm_par (fun _ _ _ => Ok ∅)
    unit (fun _ _ => Ok ∅)
    (fun _ => Ok tt) (fun _ => Ok tt)
    shows_page search_page season_page.

(** An episode with a recorded hash and no year, a movie, and candidates
    of the two providers. *)
Definition eng : Language := mkLanguage "eng" None.

Definition episode : Episode.t :=
  Episode.mk (u "Show.Name.S01E02.720p.HDTV.x264-GRP.mkv")
    (Some (u "GRP")) (Some (u "720p")) (Some (u "HDTV")) (Some (u "h264")) None
    {["opensubtitles" := u "8e245d9679d31e12"]} (Some 12909756%Z) (Some 1234567%Z)
    (Some (u "Show Name")) (Some 1%Z) (Some 2%Z) (Some (u "Pilot")) None None.

Definition movie : Movie.t :=
  Movie.mk (u "Some.Movie.2010.720p.BluRay.x264-GRP.mkv")
    (Some (u "GRP")) (Some (u "720p")) (Some (u "BluRay")) (Some (u "h264")) None
    ∅ (Some 734003200%Z) None (Some (u "Some Movie")) (Some 2010%Z).

Definition addic7ed_subtitle : Addic7edSubtitle.t :=
  Addic7edSubtitle.mk eng (Some (u "show name")) (Some 1%Z) (Some 2%Z)
    (Some (u "Pilot")) None (Some (u "720p.HDTV-GRP")) false
    (u "/original/1/2") (u "http://www.addic7ed.com/serie/Show_Name/1/2/Pilot").

Definition movie_candidate : OpenSubtitlesSubtitle.t :=
  OpenSubtitlesSubtitle.mk eng false (u "1951894257") (u "moviehash")
    (Some (u "movie")) (Some (u "8e245d9679d31e12")) (Some (u "Some Movie"))
    (Some (u "Some.Movie.2010.720p.BluRay.x264-GRP")) (Some 2010%Z) (Some 7654321%Z)
    None None (u "http://www.opensubtitles.org/en/subtitles/1").

Definition unnamed_release : OpenSubtitlesSubtitle.t :=
  OpenSubtitlesSubtitle.mk eng false (u "1951894258") (u "imdbid")
    (Some (u "movie")) None (Some (u "Some Movie")) None (Some 2010%Z) None
    None None (u "http://www.opensubtitles.org/en/subtitles/2").

(** A season page: a completed English row of episode 2, the same row
    with an empty language, and a row still in progress. *)
Definition cell (s : string) : Tag.t := Tag.mk (Some (u s)) None.
Definition link (s href : string) : Tag.t := Tag.mk (Some (u s)) (Some (u href)).
Definition empty_cell : Tag.t := Tag.mk None None.

Definition completed_row : list Tag.t :=
  [ cell "1"; cell "2"; link "Pilot" "/serie/Show_Name/1/2/Pilot"; cell "English";
    cell "720p.HDTV-GRP"; cell "Completed"; empty_cell; empty_cell; empty_cell;
    link "Download" "/original/1/2" ].

Definition no_language_row : list Tag.t :=
  [ cell "1"; cell "2"; link "Pilot" "/serie/Show_Name/1/2/Pilot"; cell "";
    cell "720p.HDTV-GRP"; cell "Completed"; empty_cell; empty_cell; empty_cell;
    link "Download" "/original/1/3" ].

Definition in_progress_row : list Tag.t :=
  [ cell "1"; cell "2"; link "Pilot" "/serie/Show_Name/1/2/Pilot"; cell "French";
    cell "720p.HDTV-GRP"; cell "45.20% Completed"; empty_cell; empty_cell;
    empty_cell; link "Download" "/original/1/4" ].

(** A server that lists one show and finds nothing by search. *)
Definition one_show : Collaborators :=
  collaborators (Ok [(Some (u "Show Name"), u "/show/123")]) (fun _ => Ok [])
    (fun _ => Ok [completed_row; no_language_row; in_progress_row]).

(** A server that lists and finds nothing. *)
Definition no_show : Collaborators :=
  collaborators (Ok []) (fun _ => Ok []) (fun _ => Ok []).

(** A server that lists nothing and answers a search with an error. *)
Definition failing_search : Collaborators :=
  collaborators (Ok []) (fun _ => Raise (Addic7edProvider.request_failed 503))
    (fun _ => Ok []).

(** A completed row of another episode, in a language that
    [fromaddic7ed] does not know. *)
Definition unknown_language_row : list Tag.t :=
  [ cell "1"; cell "7"; link "Later" "/serie/Show_Name/1/7/Later"; cell "Klingon";
    cell "720p.HDTV-GRP"; cell "Completed"; empty_cell; empty_cell; empty_cell;
    link "Download" "/original/1/7" ].

(** An XML-RPC server that answers every call with status 200, a login
    with a token and a search with [data]; only "eng" is a language code. *)
Definition ok (items : list (string * value)) : gmap string value :=
  <["status" := VStr (u "200 OK")]> (list_to_map items).

Definition fromopensubtitles (v : value) : outcome Language :=
  match v with
  | VStr s => if bool_decide (s = u "eng") then Ok eng else Raise LanguageReverseError
  | _ => Raise LanguageReverseError
  end.

Definition server_proxy (data : value) : ServerProxy :=
  Build_ServerProxy
    (fun _ _ _ _ => Ok (ok [("token", VStr (u "t0k3n"))]))
    (fun _ => Ok (ok [])) (fun _ => Ok (ok []))
    (fun _ _ => Ok (ok [("data", data)]))
    (u "0.8") fromopensubtitles.

(** A row of the data of a search, for [movie]. *)
Definition found_row : value :=
  VDict [ ("SubAddDate", VStr (u "2010-05-04 10:20:30"));
          ("SubLanguageID", VStr (u "eng"));
          ("SubHearingImpaired", VStr (u "0"));
          ("MatchedBy", VStr (u "imdbid"));
          ("MovieKind", VStr (u "movie"));
          ("MovieHash", VStr (u "0"));
          ("MovieName", VStr (u "Some Movie"));
          ("MovieReleaseName", VStr (u "Some.Movie.2010.720p.BluRay.x264-GRP"));
          ("MovieYear", VStr (u "2010"));
          ("MovieFPS", VStr (u "23.976"));
          ("IDMovieImdb", VStr (u "7654321"));
          ("SeriesIMDBParent", VStr (u "0"));
          ("SeriesSeason", VStr (u "0"));
          ("SeriesEpisode", VStr (u "0"));
          ("IDSubtitleFile", VStr (u "1951894257"));
          ("SubtitlesLink", VStr (u "http://www.opensubtitles.org/en/subtitles/1")) ].

Definition found_subtitle : OpenSubtitlesCalls.subtitle :=
  OpenSubtitlesCalls.Subtitle eng false (VStr (u "1951894257")) (VStr (u "imdbid"))
    (VStr (u "movie")) (VStr (u "0")) (VStr (u "Some Movie"))
    (VStr (u "Some.Movie.2010.720p.BluRay.x264-GRP")) (Some 2010%Z) (Some 7654321%Z)
    (Some 0%Z) (Some 0%Z) (VStr (u "http://www.opensubtitles.org/en/subtitles/1")).

(** A movie known by its file name only, and the same file under another
    name. *)
Definition unnamed_movie : Movie.t :=
  Movie.mk (u "/videos/Some.Movie.2010.720p.BluRay.x264-GRP.mkv")
    (Some (u "GRP")) (Some (u "720p")) (Some (u "BluRay")) (Some (u "h264")) None
    ∅ (Some 734003200%Z) None None (Some 2010%Z).

Definition renamed_movie : Movie.t :=
  Movie.mk (u "/videos/film.mkv")
    (Some (u "GRP")) (Some (u "720p")) (Some (u "BluRay")) (Some (u "h264")) None
    ∅ (Some 734003200%Z) None (Some (u "Some Movie")) (Some 2010%Z).

(** An addic7ed server that answers the login with [login] and the logout
    with [logout]. *)
Definition session (login logout : Z) : Addic7edProvider.Session :=
  Addic7edProvider.Build_Session (fun _ _ => Ok login) (fun _ => Ok logout).

End Model.

(** * Facts *)

#[local] Set Warnings "-clear-no-such-hyp".

(** ** The two equation systems *)

Section ScoreFacts.
Import Score.
Local Open Scope Q_scope.

Ltac split_system H :=
  unfold sympy.solves, get_episode_equations, get_movie_equations in H;
  repeat (apply Forall_cons_1 in H as [? H]); clear H;
  unfold sympy.holds in *; simpl in *; unfold inject_Z in *.

Lemma solves_episode_inv (w : symbol -> Q) :
  sympy.solves w get_episode_equations ->
  forall s, w s == episode_weights s.
Proof.
  intros Hs. split_system Hs.
  intros []; unfold episode_weights, inject_Z; lra.
Qed.

Lemma solves_movie_inv (w : symbol -> Q) :
  sympy.solves w get_movie_equations ->
  forall s, s ∈ movie_symbols -> w s == movie_weights s.
Proof.
  intros Hs. split_system Hs.
  intros s Hin. unfold movie_symbols in Hin.
  repeat (apply elem_of_cons in Hin as [->|Hin]);
    try (unfold movie_weights, inject_Z; lra).
  by apply elem_of_nil in Hin.
Qed.

Lemma episode_weights_solves : sympy.solves episode_weights get_episode_equations.
Proof. repeat constructor. Qed.

Lemma movie_weights_solves : sympy.solves movie_weights get_movie_equations.
Proof. repeat constructor. Qed.

Lemma solvesb_spec (w : symbol -> Q) (equations : list (sympy.Eq symbol)) :
  sympy.solvesb w equations = true <-> sympy.solves w equations.
Proof.
  unfold sympy.solvesb, sympy.solves. rewrite forallb_forall, Forall_forall.
  split; intros Hall e He.
  - apply Qeq_bool_iff, Hall. by apply list_elem_of_In.
  - apply Qeq_bool_iff, Hall. by apply list_elem_of_In.
Qed.

Lemma episode_weights_pos (s : symbol) : 0 < episode_weights s.
Proof. by destruct s. Qed.

Lemma movie_weights_pos (s : symbol) : s ∈ movie_symbols -> 0 < movie_weights s.
Proof.
  unfold movie_symbols. intros Hin.
  repeat (apply elem_of_cons in Hin as [->|Hin]); try done.
  by apply elem_of_nil in Hin.
Qed.

(** C1, as the spec words it, fails: the solution has
    [resolution = 4 < 20 = episode] and [video_codec = 1 < 2 = audio_codec]. *)
Lemma episode_ordering_as_claimed_fails :
  ~ (forall w : symbol -> Q,
       sympy.solves w get_episode_equations ->
       (forall s, 0 < w s) /\
       w hash > w series + w year + w season /\
       w series + w year + w season > w title /\
       w title > w release_group /\
       w release_group > w format /\
       w format == w resolution /\
       w resolution > w episode /\
       w episode == w season /\
       w season > w video_codec /\
       w video_codec > w audio_codec).
Proof.
  intros Hclaim.
  destruct (Hclaim episode_weights episode_weights_solves)
    as (_ & _ & _ & _ & _ & _ & Hres & _).
  by vm_compute in Hres.
Qed.

(** C1, amended: every solution of the episode system is the closed form
    above, gives each of the 13 symbols a strictly positive weight, and
    orders them
    hash > series + year + season > title > episode = season >
    release_group > format = resolution > audio_codec > video_codec. *)
Theorem episode_solution_ordering (w : symbol -> Q) :
  sympy.solves w get_episode_equations ->
  (forall s, w s == episode_weights s) /\
  (forall s, 0 < w s) /\
  w hash > w series + w year + w season /\
  w series + w year + w season > w title /\
  w title > w episode /\
  w episode == w season /\
  w season > w release_group /\
  w release_group > w format /\
  w format == w resolution /\
  w resolution > w audio_codec /\
  w audio_codec > w video_codec.
Proof.
  intros Hs. pose proof (solves_episode_inv w Hs) as Hw.
  split; [done|]. split.
  { intros s. rewrite (Hw s). apply episode_weights_pos. }
  rewrite !Hw. by vm_compute.
Qed.

Lemma episode_solution_ordering_witness :
  sympy.solves episode_weights get_episode_equations /\
  (forall s, 0 < episode_weights s) /\
  episode_weights hash
    > episode_weights series + episode_weights year + episode_weights season /\
  episode_weights resolution > episode_weights audio_codec /\
  episode_weights audio_codec > episode_weights video_codec.
Proof.
  split; [repeat constructor|].
  destruct (episode_solution_ordering episode_weights)
    as (_ & Hpos & Hhash & _ & _ & _ & _ & _ & _ & Hres & Haudio).
  - repeat constructor.
  - repeat split; assumption.
Defined.

(** C2, as the spec words it, fails: equation 3 makes [resolution] equal
    to [video_codec]. *)
Lemma movie_ordering_as_claimed_fails :
  ~ (forall w : symbol -> Q,
       sympy.solves w get_movie_equations ->
       w hash == w imdb_id /\
       w audio_codec < w video_codec /\
       w video_codec < w resolution).
Proof.
  intros Hclaim.
  destruct (Hclaim movie_weights movie_weights_solves) as (_ & _ & Hres).
  by vm_compute in Hres.
Qed.

(** C2, amended: every solution of the movie system is the closed form
    above on the nine movie symbols; it has [hash = imdb_id], and
    [audio_codec] strictly smaller than [video_codec], which equals
    [resolution]. *)
Theorem movie_solution_ordering (w : symbol -> Q) :
  sympy.solves w get_movie_equations ->
  (forall s, s ∈ movie_symbols -> w s == movie_weights s) /\
  w hash == w imdb_id /\
  w audio_codec < w video_codec /\
  w video_codec == w resolution.
Proof.
  intros Hs. pose proof (solves_movie_inv w Hs) as Hw.
  split; [done|].
  rewrite !Hw by (unfold movie_symbols; set_solver).
  by vm_compute.
Qed.

Lemma movie_solution_ordering_witness :
  sympy.solves movie_weights get_movie_equations /\
  movie_weights hash == movie_weights imdb_id /\
  movie_weights audio_codec < movie_weights video_codec /\
  movie_weights video_codec == movie_weights resolution.
Proof.
  split; [repeat constructor|].
  apply (movie_solution_ordering movie_weights). repeat constructor.
Defined.

(** *** The score of a match set *)

Lemma total_perm (weightMap : gmap symbol Q) (l l' : list symbol) :
  l ≡ₚ l' -> total weightMap l == total weightMap l'.
Proof.
  induction 1 as [|a l l' _ IH|a b l|l1 l2 l3 _ IH1 _ IH2]; simpl.
  - reflexivity.
  - by rewrite IH.
  - ring.
  - by rewrite IH1.
Qed.

Lemma mapM_total (weightMap : gmap symbol Q) (l : list symbol) (ws : list Q) :
  mapM (fun a => weightMap !! a) l = Some ws ->
  foldr Qplus 0 ws = total weightMap l.
Proof.
  intros Hm. apply mapM_Some in Hm.
  induction Hm as [|a x l ws Hx _ IH]; simpl; [done|].
  by rewrite Hx, IH.
Qed.

Lemma compute_score_Some (weightMap : gmap symbol Q) (matchSet : gset symbol) (score : Q) :
  compute_score weightMap matchSet = Some score <->
  (forall a, a ∈ matchSet -> is_Some (weightMap !! a)) /\
  score = total weightMap (elements matchSet).
Proof.
  unfold compute_score. split.
  - intros Hs. destruct (mapM _ _) as [ws|] eqn:Hm; simplify_eq/=.
    split; [|by apply mapM_total].
    intros a Ha. assert (is_Some (mapM (fun a => weightMap !! a) (elements matchSet))) as Hsome
      by (by rewrite Hm).
    apply mapM_is_Some in Hsome. rewrite Forall_forall in Hsome.
    apply Hsome. by apply elem_of_elements.
  - intros [Hdom ->].
    assert (is_Some (mapM (fun a => weightMap !! a) (elements matchSet))) as [ws Hm].
    { apply mapM_is_Some, Forall_forall. intros a Ha. apply Hdom. by apply elem_of_elements. }
    rewrite Hm. simpl. by rewrite (mapM_total _ _ _ Hm).
Qed.

Lemma weight_map_lookup (symbols : list symbol) (w : symbol -> Q) (a : symbol) (x : Q) :
  weight_map symbols w !! a = Some x -> a ∈ symbols /\ x = w a.
Proof.
  unfold weight_map. intros Hl.
  apply elem_of_list_to_map_2 in Hl.
  apply list_elem_of_fmap in Hl as (s & [= -> ->] & Hs). done.
Qed.

(** What the two solved weight maps share: every weight is positive. *)
Lemma solved_weight_pos (w : symbol -> Q) (weightMap : gmap symbol Q) (a : symbol) (x : Q) :
  sympy.solves w get_episode_equations /\ weightMap = weight_map episode_symbols w \/
  sympy.solves w get_movie_equations /\ weightMap = weight_map movie_symbols w ->
  weightMap !! a = Some x -> 0 < x.
Proof.
  intros [[Hs ->]|[Hs ->]] Hl; apply weight_map_lookup in Hl as [Hin ->].
  - rewrite (solves_episode_inv w Hs). apply episode_weights_pos.
  - rewrite (solves_movie_inv w Hs a Hin). by apply movie_weights_pos.
Qed.

(** Adding an attribute the set lacks adds its weight. *)
Lemma compute_score_add (weightMap : gmap symbol Q) (matchSet : gset symbol)
    (a : symbol) (x score : Q) :
  a ∉ matchSet ->
  weightMap !! a = Some x ->
  compute_score weightMap matchSet = Some score ->
  exists score',
    compute_score weightMap (matchSet ∪ {[a]}) = Some score' /\ score' == x + score.
Proof.
  intros Ha Hx Hscore.
  apply compute_score_Some in Hscore as [Hdom ->].
  exists (total weightMap (elements (matchSet ∪ {[a]}))). split.
  - apply compute_score_Some. split; [|done].
    intros b [Hb| ->%elem_of_singleton]%elem_of_union; [by apply Hdom|by exists x].
  - assert (elements (matchSet ∪ {[a]}) ≡ₚ a :: elements matchSet) as Hperm.
    { rewrite (comm_L (∪)). by apply elements_union_singleton. }
    rewrite (total_perm _ _ _ Hperm). simpl. by rewrite Hx.
Qed.

(** The score even grows, every solved weight being positive. *)
Lemma compute_score_strictly_monotone (w : symbol -> Q) (weightMap : gmap symbol Q)
    (matchSet : gset symbol) (a : symbol) (score : Q) :
  sympy.solves w get_episode_equations /\ weightMap = weight_map episode_symbols w \/
  sympy.solves w get_movie_equations /\ weightMap = weight_map movie_symbols w ->
  a ∉ matchSet ->
  is_Some (weightMap !! a) ->
  compute_score weightMap matchSet = Some score ->
  exists score',
    compute_score weightMap (matchSet ∪ {[a]}) = Some score' /\ score < score'.
Proof.
  intros Hsolved Ha [x Hx] Hscore.
  destruct (compute_score_add weightMap matchSet a x score Ha Hx Hscore)
    as (score' & Hscore' & Hsum).
  exists score'. split; [done|].
  pose proof (solved_weight_pos w weightMap a x Hsolved Hx). lra.
Qed.

(** C6: for the weight map solved from the episode system and for the one
    solved from the movie system, adding to a match set an attribute it
    lacks and the map has gives a score that is not smaller. *)
Theorem compute_score_monotone (w : symbol -> Q) (weightMap : gmap symbol Q)
    (matchSet : gset symbol) (a : symbol) (score : Q) :
  sympy.solves w get_episode_equations /\ weightMap = weight_map episode_symbols w \/
  sympy.solves w get_movie_equations /\ weightMap = weight_map movie_symbols w ->
  a ∉ matchSet ->
  is_Some (weightMap !! a) ->
  compute_score weightMap matchSet = Some score ->
  exists score',
    compute_score weightMap (matchSet ∪ {[a]}) = Some score' /\ score <= score'.
Proof.
  intros Hsolved Ha Hsome Hscore.
  destruct (compute_score_strictly_monotone w weightMap matchSet a score
              Hsolved Ha Hsome Hscore) as (score' & Hscore' & Hlt).
  exists score'. split; [done|]. by apply Qlt_le_weak.
Qed.

Lemma compute_score_monotone_witness :
  (exists score',
     compute_score (weight_map episode_symbols episode_weights)
       ({[series; season]} ∪ {[episode]}) = Some score' /\ 40 <= score') /\
  (exists score',
     compute_score (weight_map movie_symbols movie_weights) ({[title]} ∪ {[hash]})
     = Some score' /\ 13 <= score').
Proof.
  split.
  - apply (compute_score_monotone episode_weights
             (weight_map episode_symbols episode_weights) {[series; season]} episode 40).
    + left. split; [repeat constructor|reflexivity].
    + intros [Hin|Hin]%elem_of_union; apply elem_of_singleton in Hin; discriminate.
    + vm_compute. eexists. reflexivity.
    + vm_compute. reflexivity.
  - apply (compute_score_monotone movie_weights
             (weight_map movie_symbols movie_weights) {[title]} hash 13).
    + right. split; [repeat constructor|reflexivity].
    + intros Hin%elem_of_singleton. discriminate.
    + vm_compute. eexists. reflexivity.
    + vm_compute. reflexivity.
Defined.

End ScoreFacts.

(** ** [clean_series] *)

Section CleanSeries.
Context {C : Collaborators}.
Local Open Scope N_scope.

(** The two literals of [clean_series] as code points. *)
Lemma symbols_codes : u "?!.',/:-" = [63; 33; 46; 39; 44; 47; 58; 45].
Proof. reflexivity. Qed.

Lemma two_spaces_codes : u "  " = [32; 32].
Proof. reflexivity. Qed.

Lemma ascii_lower_clean (c : N) :
  c < 128 -> c ≠ 38 -> c ∉ u "?!.',/:-" -> clean_char (ascii_lower c).
Proof.
  unfold clean_char. rewrite symbols_codes, !not_elem_of_cons.
  intros Hlt Hamp Hsym. unfold ascii_lower.
  destruct (N.leb_spec 65 c), (N.leb_spec c 90); simpl;
    repeat match goal with
           | |- context [?a <=? ?b] => destruct (N.leb_spec a b); simpl
           end;
    intuition (try lia; try (by eapply not_elem_of_nil)).
Qed.

Lemma ascii_lower_space (c : N) : ascii_lower c = 32 <-> c = 32.
Proof.
  unfold ascii_lower.
  destruct (N.leb_spec 65 c), (N.leb_spec c 90); simpl; lia.
Qed.

Lemma lower_ascii (s : unicode) :
  Forall (fun c => c < 128) s -> lower s = ascii_lower <$> s.
Proof.
  unfold lower, lower_with. induction 1 as [|c s Hc _ IH]; [done|].
  rewrite !fmap_cons, IH. apply N.ltb_lt in Hc. by rewrite Hc.
Qed.

(** *** The stages keep what the earlier ones have set up *)

Lemma encode_ascii_ignore_ascii (s : unicode) :
  Forall (fun c => c < 128) (encode_ascii_ignore s).
Proof. unfold encode_ascii_ignore. apply Forall_forall. by intros c [? _]%list_elem_of_filter. Qed.

Lemma sub_ampersand_spec (s : unicode) :
  Forall (fun c => c < 128) s ->
  Forall (fun c => c < 128 /\ c ≠ 38) (sub_ampersand s).
Proof.
  unfold sub_ampersand. induction 1 as [|c s Hc _ IH]; simpl; [done|].
  apply Forall_app. split; [|done].
  destruct (N.eqb_spec c 38).
  - repeat constructor; done.
  - by repeat constructor.
Qed.

Lemma sub_symbols_spec (P : N -> Prop) (s : unicode) :
  Forall P s -> Forall (fun c => P c /\ c ∉ u "?!.',/:-") (sub_symbols s).
Proof.
  unfold sub_symbols. rewrite !Forall_forall.
  intros HP c [? ?]%list_elem_of_filter. split; [by apply HP|done].
Qed.

Lemma sub_spaces_sublist (s : unicode) : sub_spaces s `sublist_of` s.
Proof.
  induction s as [|c [|c' s'] IH]; simpl in *; [done..|].
  destruct ((c =? 32) && (c' =? 32)).
  - by apply sublist_cons.
  - by apply sublist_skip.
Qed.

Lemma sub_spaces_head (c : N) (s : unicode) : head (sub_spaces (c :: s)) = Some c.
Proof.
  revert c. induction s as [|c' s IH]; intros c; [done|].
  change (sub_spaces (c :: c' :: s))
    with (if (c =? 32) && (c' =? 32) then sub_spaces (c' :: s) else c :: sub_spaces (c' :: s)).
  destruct (N.eqb_spec c 32), (N.eqb_spec c' 32); simpl; try done.
  subst. apply IH.
Qed.

Lemma startswith_two_spaces (s : unicode) :
  startswith s [32; 32] = true <-> exists r, s = 32 :: 32 :: r.
Proof.
  split.
  - destruct s as [|a [|b r]]; simpl; try done.
    + by rewrite andb_false_r.
    + repeat case_bool_decide; simpl; try done. subst. by exists r.
  - by intros [r ->].
Qed.

Lemma sub_spaces_single (s : unicode) : contains (sub_spaces s) (u "  ") = false.
Proof.
  rewrite two_spaces_codes.
  induction s as [|c [|c' s'] IH]; [done|simpl; by rewrite andb_false_r|].
  change (sub_spaces (c :: c' :: s'))
    with (if (c =? 32) && (c' =? 32) then sub_spaces (c' :: s') else c :: sub_spaces (c' :: s')).
  destruct ((c =? 32) && (c' =? 32)) eqn:Hcc; [done|].
  cbn [contains]. rewrite IH, orb_false_r.
  apply not_true_is_false. intros [r Hr]%startswith_two_spaces.
  pose proof (sub_spaces_head c' s') as Hhd.
  destruct (sub_spaces (c' :: s')) as [|d t]; [done|].
  simplify_eq/=.
Qed.

Lemma contains_fmap_spaces (f : N -> N) (s : unicode) :
  (forall c, f c = 32 <-> c = 32) ->
  contains (f <$> s) [32; 32] = contains s [32; 32].
Proof.
  intros Hf. induction s as [|c s IH]; [done|].
  rewrite fmap_cons. cbn [contains]. rewrite IH. f_equal.
  apply eq_true_iff_eq. rewrite <- fmap_cons, !startswith_two_spaces. split.
  - intros [r Hr]. destruct s as [|c' s]; [done|].
    rewrite !fmap_cons in Hr. injection Hr as Hc Hc' _.
    apply (proj1 (Hf _)) in Hc, Hc'. subst. by eexists.
  - intros [r ->]. rewrite !fmap_cons.
    rewrite (proj2 (Hf 32) eq_refl). by eexists.
Qed.

Lemma clean_series_cleaned (s : unicode) : cleaned (clean_series s).
Proof.
  unfold clean_series.
  set (filtered_str := encode_ascii_ignore (normalize_NFKD s)).
  set (t := sub_spaces (sub_symbols (sub_ampersand filtered_str))).
  assert (Forall (fun c => (c < 128 /\ c ≠ 38) /\ c ∉ u "?!.',/:-") t) as Ht.
  { apply Forall_forall. intros c Hc.
    eapply elem_of_sublist in Hc; [|apply sub_spaces_sublist].
    revert c Hc. apply Forall_forall.
    apply sub_symbols_spec, sub_ampersand_spec, encode_ascii_ignore_ascii. }
  rewrite lower_ascii by (eapply Forall_impl; [exact Ht|]; by intros c [[? ?] ?]).
  split.
  - apply Forall_fmap. eapply Forall_impl; [exact Ht|].
    intros c [[? ?] ?]. by apply ascii_lower_clean.
  - rewrite two_spaces_codes, contains_fmap_spaces by apply ascii_lower_space.
    rewrite <- two_spaces_codes. apply sub_spaces_single.
Qed.

(** *** A cleaned name passes every stage unchanged *)

Lemma normalize_NFKD_ascii (t : unicode) :
  Forall (fun c => c < 128) t -> normalize_NFKD t = t.
Proof.
  unfold normalize_NFKD. induction 1 as [|c t Hc _ IH]; simpl; [done|].
  apply N.ltb_lt in Hc. by rewrite Hc, IH.
Qed.

Lemma encode_ascii_ignore_id (t : unicode) :
  Forall (fun c => c < 128) t -> encode_ascii_ignore t = t.
Proof.
  unfold encode_ascii_ignore. induction 1 as [|c t Hc _ IH]; [done|].
  by rewrite filter_cons_True, IH.
Qed.

Lemma sub_ampersand_id (t : unicode) :
  Forall (fun c => c ≠ 38) t -> sub_ampersand t = t.
Proof.
  unfold sub_ampersand. induction 1 as [|c t Hc _ IH]; simpl; [done|].
  apply N.eqb_neq in Hc. by rewrite Hc, IH.
Qed.

Lemma sub_symbols_id (t : unicode) :
  Forall (fun c => c ∉ u "?!.',/:-") t -> sub_symbols t = t.
Proof.
  unfold sub_symbols. induction 1 as [|c t Hc _ IH]; [done|].
  by rewrite filter_cons_True, IH.
Qed.

Lemma sub_spaces_id (t : unicode) :
  contains t (u "  ") = false -> sub_spaces t = t.
Proof.
  rewrite two_spaces_codes.
  induction t as [|c [|c' t'] IH]; [reflexivity|reflexivity|].
  cbn [contains]. intros [Hst Hrest]%orb_false_elim.
  change (sub_spaces (c :: c' :: t'))
    with (if (c =? 32) && (c' =? 32) then sub_spaces (c' :: t') else c :: sub_spaces (c' :: t')).
  destruct (N.eqb_spec c 32), (N.eqb_spec c' 32); cbn [andb]; subst;
    [by simpl in Hst|by rewrite (IH Hrest)..].
Qed.

Lemma lower_id (t : unicode) :
  Forall (fun c => c < 128 /\ ascii_lower c = c) t -> lower t = t.
Proof.
  intros Ht. rewrite lower_ascii by (eapply Forall_impl; [exact Ht|]; by intros c [? ?]).
  induction Ht as [|c t [_ Hc] _ IH]; [done|].
  by rewrite fmap_cons, Hc, IH.
Qed.

Lemma cleaned_fixpoint (t : unicode) : cleaned t -> clean_series t = t.
Proof.
  intros [Hchars Hspaces]. unfold clean_series.
  rewrite normalize_NFKD_ascii, encode_ascii_ignore_id, sub_ampersand_id,
    sub_symbols_id, sub_spaces_id, lower_id; try done;
    (eapply Forall_impl; [exact Hchars|]; by intros c (? & ? & ? & ?)).
Qed.

(** C9: [clean_series] is idempotent; its output is in lower case (and
    ASCII), holds none of the characters ?!.',/:-& and no two spaces in a
    row. *)
Theorem clean_series_idempotent (s : unicode) :
  clean_series (clean_series s) = clean_series s /\
  lower (clean_series s) = clean_series s /\
  Forall (fun c => c < 128 /\ ~ (65 <= c <= 90)) (clean_series s) /\
  (forall c, c ∈ u "?!.',/:-&" -> c ∉ clean_series s) /\
  contains (clean_series s) (u "  ") = false.
Proof.
  pose proof (clean_series_cleaned s) as Hclean.
  split; [by apply cleaned_fixpoint|].
  destruct Hclean as [Hchars Hspaces].
  split; [|split; [|split; [|done]]].
  - apply lower_id. eapply Forall_impl; [exact Hchars|]. by intros c (? & ? & _).
  - eapply Forall_impl; [exact Hchars|]. intros c (Hlt & Hlow & _). split; [done|].
    intros [Hlo Hhi]. unfold ascii_lower in Hlow.
    apply N.leb_le in Hlo, Hhi. rewrite Hlo, Hhi in Hlow. simpl in Hlow. lia.
  - intros c Hc Hin. rewrite Forall_forall in Hchars.
    destruct (Hchars c Hin) as (_ & _ & Hamp & Hsym).
    change (u "?!.',/:-&") with (u "?!.',/:-" ++ [38]) in Hc.
    apply elem_of_app in Hc as [Hc|Hc%list_elem_of_singleton]; done.
Qed.

End CleanSeries.

(** ** [checked] *)

Section Checked.
Context {C : Collaborators}.
Local Open Scope Z_scope.

Ltac case_status n :=
  repeat match goal with
         | |- context [(n =? ?k)%Z] => destruct (Z.eqb_spec n k) as [->|?]; simpl
         end.

Lemma checked_Ok (response r : gmap string value) :
  checked response = Ok r <-> r = response /\ status_code response = Ok 200.
Proof.
  unfold checked. destruct (status_code response) as [n|e]; simpl;
    [|split; [done|by intros [_ ?]]].
  case_status n;
    try (split; [by intros [= ->]|by intros [-> _]]);
    try (split; [done|by intros [_ ?]]).
  split; [|intros [_ [= ?]]; done].
  destruct (response_status response) as [[]|]; simpl; discriminate.
Qed.

(** C10: [checked] returns its argument, unchanged, exactly when the
    status starts with the number 200; with any other number it raises the
    exception of that number: 401 [Unauthorized], 406 [NoSession],
    407 [DownloadLimitReached], 413 [InvalidImdbid], 414 [UnknownUserAgent],
    415 [DisabledUserAgent], 503 [ServiceUnavailable], any other the
    generic [OpenSubtitlesError] with the status; and when reading the
    number raises, [checked] raises the same. *)
Theorem checked_by_status_code (response : gmap string value) :
  (checked response = Ok response <-> status_code response = Ok 200) /\
  (forall r, checked response = Ok r -> r = response) /\
  (forall e, status_code response = Raise e -> checked response = Raise e) /\
  (forall (n : Z) (status : unicode),
     response !! "status" = Some (VStr status) ->
     status_code response = Ok n ->
     n ≠ 200 ->
     checked response =
       Raise match n with
             | 401 => Unauthorized
             | 406 => NoSession
             | 407 => DownloadLimitReached
             | 413 => InvalidImdbid
             | 414 => UnknownUserAgent
             | 415 => DisabledUserAgent
             | 503 => ServiceUnavailable
             | _ => OpenSubtitlesError status
             end).
Proof.
  split; [|split; [|split]].
  - rewrite checked_Ok. split; [by intros [_ ?]|done].
  - by intros r [-> _]%checked_Ok.
  - intros e Hcode. unfold checked. by rewrite Hcode.
  - intros n status Hstatus Hcode Hn. unfold checked. rewrite Hcode. simpl.
    case_status n; try done.
    unfold response_status. rewrite Hstatus. simpl.
    do 3 f_equal.
    destruct n as [|p|p]; try done.
    do 10 (try (destruct p as [p|p|]; try done)).
Qed.

End Checked.

Lemma checked_by_status_code_witness :
  let C := Model.collaborators (Ok []) (fun _ => Ok []) (fun _ => Ok []) in
  let response : gmap string value := {["status" := VStr (u "407 Download limit reached")]} in
  checked response = Raise DownloadLimitReached.
Proof.
  intros C response.
  destruct (checked_by_status_code response) as (_ & _ & _ & Hraise).
  apply (Hraise 407%Z (u "407 Download limit reached")); by vm_compute.
Defined.

(** ** [OpenSubtitlesProvider.query] *)

Section QuerySearches.
Context {C : Collaborators}.
Import OpenSubtitlesProvider.

(** C7: the searches are the content-hash criterion (when hash and size
    are both given), then the external-id criterion (when imdb_id is
    given), then the free-text criterion (with season and episode when
    both are given, else the query alone), each with the languages added;
    and [query] raises, before it sends anything, exactly when none of the
    three can be formed. *)
Theorem query_searches_order (languages : list Language) (hash : option unicode)
    (size imdb_id : option Z) (query : option unicode) (season episode : option Z) :
  let criteria :=
    by_content_hash hash size ++ by_external_id imdb_id
      ++ by_free_text query season episode in
  let sublanguageid := VStr (join (u ",") (opensubtitles <$> languages)) in
  (criteria = [] <-> (hash = None \/ size = None) /\ imdb_id = None /\ query = None) /\
  (criteria = [] ->
   query_searches languages hash size imdb_id query season episode
   = Raise (ValueError "One or more parameter missing")) /\
  (criteria ≠ [] ->
   query_searches languages hash size imdb_id query season episode
   = Ok ((fun search => <["sublanguageid" := sublanguageid]> search) <$> criteria)).
Proof.
  unfold query_searches, by_content_hash, by_external_id, by_free_text.
  destruct hash, size, imdb_id, query, season, episode; simpl;
    (split; [split; [try done; by intuition|intros (? & ? & ?); by intuition]|]);
    (split; [done|try done]); by intros [].
Qed.

End QuerySearches.

Lemma query_searches_order_witness :
  let C := Model.collaborators (Ok []) (fun _ => Ok []) (fun _ => Ok []) in
  let eng := mkLanguage "eng" None in
  let fra := mkLanguage "fra" None in
  OpenSubtitlesProvider.query_searches [eng; fra] (Some (u "8e245d9679d31e12")) (Some 7340%Z)
    None (Some (u "Show Name (US)")) (Some 1%Z) (Some 2%Z)
  = Ok [ <["sublanguageid" := VStr (u "eng,fra")]>
           (<["moviehash" := VStr (u "8e245d9679d31e12")]>
              {["moviebytesize" := VStr (u "7340")]});
         <["sublanguageid" := VStr (u "eng,fra")]>
           (<["query" := VStr (u "Show Name")]>
              (<["season" := VInt 1]> {["episode" := VInt 2]})) ] /\
  OpenSubtitlesProvider.query_searches [eng] (Some (u "8e245d9679d31e12")) None None None
    (Some 1%Z) (Some 2%Z)
  = Raise (ValueError "One or more parameter missing").
Proof.
  intros C eng fra. split.
  - destruct (query_searches_order [eng; fra] (Some (u "8e245d9679d31e12"))
                (Some 7340%Z) None (Some (u "Show Name (US)")) (Some 1%Z) (Some 2%Z))
      as (_ & _ & Hok).
    rewrite Hok by done. vm_compute. reflexivity.
  - destruct (query_searches_order [eng] (Some (u "8e245d9679d31e12"))
                None None None (Some 1%Z) (Some 2%Z))
      as (_ & Hraise & _).
    by apply Hraise.
Defined.

(** ** The two [compute_matches] *)

Lemma elem_of_add_if (cond : bool) (a b : Score.symbol) (matches : gset Score.symbol) :
  a ∈ add_if cond b matches <-> a ∈ matches \/ (cond = true /\ a = b).
Proof. unfold add_if. destruct cond; set_solver. Qed.

Lemma present_and_equal {A : Type} `{EqDecision A} (x y : option A) :
  bool_decide (x ≠ None) && bool_decide (y = x) = true <->
  exists n, x = Some n /\ y = Some n.
Proof.
  rewrite andb_true_iff, !bool_decide_eq_true. split.
  - intros [Hx ->]. destruct x as [n|]; [by exists n|done].
  - intros (n & -> & ->). done.
Qed.

Lemma present_and_equal_r {A : Type} `{EqDecision A} (x y : option A) :
  bool_decide (x ≠ None) && bool_decide (x = y) = true <->
  exists n, x = Some n /\ y = Some n.
Proof.
  rewrite <- present_and_equal. rewrite !andb_true_iff, !bool_decide_eq_true.
  split; intros [? ?]; done.
Qed.

(** Closes a membership once the attribute is known. *)
Ltac by_attribute := intuition (first [discriminate | done]).

Section OpenSubtitlesMatches.
Context {C : Collaborators}.
Import OpenSubtitlesSubtitle.

(** What [compute_matches] adds before it looks at the kind. *)
Lemma elem_of_hash_imdb_id (self : t) (video : Video.t) (a : Score.symbol) :
  a ∈ add_if (bool_decide (Video.imdb_id video ≠ None)
              && bool_decide (Video.imdb_id video = movie_imdb_id self))
        Score.imdb_id
        (add_if match Video.hashes video !! "opensubtitles" with
                | Some video_hash => bool_decide (hash self = Some video_hash)
                | None => false
                end Score.hash ∅) <->
  (a = Score.hash /\
   exists h, Video.hashes video !! "opensubtitles" = Some h /\ hash self = Some h) \/
  (a = Score.imdb_id /\
   exists n, Video.imdb_id video = Some n /\ movie_imdb_id self = Some n).
Proof.
  rewrite !elem_of_add_if, elem_of_empty, present_and_equal_r.
  assert (match Video.hashes video !! "opensubtitles" with
          | Some video_hash => bool_decide (hash self = Some video_hash)
          | None => false
          end = true <->
          exists h, Video.hashes video !! "opensubtitles" = Some h /\ hash self = Some h)
    as ->.
  { destruct (Video.hashes video !! "opensubtitles") as [h|].
    - rewrite bool_decide_eq_true. split; [by exists h|by intros (? & [= <-] & ?)].
    - split; [done|by intros (? & ? & _)]. }
  destruct a; by_attribute.
Qed.

(** C3, amended: when the kinds disagree [compute_matches] returns the
    matches it makes before it looks at the kind, and only those: [hash]
    when the video's recorded opensubtitles hash is the candidate's,
    [imdb_id] when the video has an imdb id and it is the candidate's. *)
Theorem compute_matches_kind_mismatch (self : t) (video : Video.t) :
  ~ kinds_agree self video ->
  exists matches : gset Score.symbol,
    compute_matches self video = Ok matches /\
    forall a : Score.symbol,
      a ∈ matches <->
      (a = Score.hash /\
       exists h, Video.hashes video !! "opensubtitles" = Some h /\ hash self = Some h) \/
      (a = Score.imdb_id /\
       exists n, Video.imdb_id video = Some n /\ movie_imdb_id self = Some n).
Proof.
  intros Hkinds. unfold compute_matches.
  destruct (Video.is_episode video && _) eqn:He.
  { destruct Hkinds. left. apply andb_prop in He as [? ?%bool_decide_eq_true]. done. }
  destruct (Video.is_movie video && _) eqn:Hm.
  { destruct Hkinds. right. apply andb_prop in Hm as [? ?%bool_decide_eq_true]. done. }
  eexists. split; [done|]. apply elem_of_hash_imdb_id.
Qed.

End OpenSubtitlesMatches.

(** C3, as the spec words it, fails: an episode whose recorded hash is the
    hash of a candidate of kind movie gets the match set [{hash}], not the
    empty one. *)
Lemma kind_mismatch_keeps_hash :
  let C := Model.no_show in
  let video := Video.IsEpisode Model.episode in
  ~ OpenSubtitlesSubtitle.kinds_agree Model.movie_candidate video /\
  OpenSubtitlesSubtitle.compute_matches Model.movie_candidate video = Ok {[Score.hash]} /\
  OpenSubtitlesSubtitle.compute_matches Model.movie_candidate video ≠ Ok ∅.
Proof.
  intros C video. split; [|split].
  - intros [[_ [=]]|[[=] _]].
  - by vm_compute.
  - assert (OpenSubtitlesSubtitle.compute_matches Model.movie_candidate video
            = Ok {[Score.hash]}) as -> by (by vm_compute).
    intros Heq.
    assert (({[Score.hash]} : gset Score.symbol) = ∅) as Hset by congruence.
    set_solver.
Qed.

Lemma compute_matches_kind_mismatch_witness :
  let C := Model.no_show in
  let video := Video.IsEpisode Model.episode in
  exists matches : gset Score.symbol,
    OpenSubtitlesSubtitle.compute_matches Model.movie_candidate video = Ok matches /\
    forall a : Score.symbol,
      a ∈ matches <->
      (a = Score.hash /\
       exists h, Video.hashes video !! "opensubtitles" = Some h
                 /\ OpenSubtitlesSubtitle.hash Model.movie_candidate = Some h) \/
      (a = Score.imdb_id /\
       exists n, Video.imdb_id video = Some n
                 /\ OpenSubtitlesSubtitle.movie_imdb_id Model.movie_candidate = Some n).
Proof.
  intros C video.
  apply (compute_matches_kind_mismatch Model.movie_candidate video).
  intros [[_ Hkind]|[Hmovie _]]; [by vm_compute in Hkind|by vm_compute in Hmovie].
Defined.

Section Compared.
Context {C : Collaborators}.

Lemma hmg_eq_true (a b : option unicode) :
  hmg_eq a b = Ok true <-> hmg_same a b.
Proof.
  unfold hmg_eq, hmg_same. destruct (hmg a) as [x|]; simpl; [|naive_solver].
  destruct (hmg b) as [y|]; simpl; [|naive_solver].
  split.
  - intros [= Hxy%bool_decide_eq_true]. subst. by exists y.
  - intros (z & [= ->] & [= ->]). by rewrite bool_decide_eq_true_2.
Qed.

Lemma in_version_true (self : Addic7edSubtitle.t) (prop : option unicode) :
  Addic7edSubtitle.in_version self prop = true <->
  exists p v, prop = Some p /\ Addic7edSubtitle.version self = Some v
              /\ contains (lower v) (lower p) = true.
Proof.
  unfold Addic7edSubtitle.in_version.
  destruct prop as [p|], (Addic7edSubtitle.version self) as [v|]; naive_solver.
Qed.

Ltac run_bind :=
  match goal with
  | |- context [bind ?m _] =>
      let x := fresh "x" in
      let Hx := fresh "Hx" in
      destruct m as [x|] eqn:Hx; cbn [bind]; [|try discriminate]
  end.

Lemma addic7ed_matches (self : Addic7edSubtitle.t) (video : Video.t)
    (matches : gset Score.symbol) :
  Addic7edSubtitle.compute_matches self video = Ok matches ->
  exists (e : Episode.t) (guessed : gset Score.symbol),
    video = Video.IsEpisode e /\
    Addic7edSubtitle.guessed self video = Ok guessed /\
    forall a, a ∈ matches <-> a ∈ guessed \/ Addic7edSubtitle.compared self e a.
Proof.
  unfold Addic7edSubtitle.compute_matches, Addic7edSubtitle.guessed.
  destruct video as [e|m]; [|discriminate]. cbn [Video.series Video.season Video.episode bind].
  run_bind. rename x into same_series, Hx into Hseries.
  run_bind. rename x into same_title, Hx into Htitle.
  run_bind. run_bind. intros [= <-].
  exists e. eexists. split; [done|]. split; [done|].
  assert (same_series = true <->
          exists s, Episode.series e = Some s /\ hmg_same (Some s) (Addic7edSubtitle.series self))
    as Hs.
  { destruct (Episode.series e) as [s|].
    - destruct same_series; [|split; [done|]].
      + apply hmg_eq_true in Hseries. split; [by exists s|done].
      + intros (s' & [= <-] & Hsame%hmg_eq_true). congruence.
    - destruct same_series; simplify_eq. split; [done|by intros (? & ? & ?)]. }
  assert (same_title = true <->
          exists s, Episode.title e = Some s /\ hmg_same (Some s) (Addic7edSubtitle.title self))
    as Ht.
  { cbn [Video.title] in Htitle. destruct (Episode.title e) as [s|].
    - destruct same_title; [|split; [done|]].
      + apply hmg_eq_true in Htitle. split; [by exists s|done].
      + intros (s' & [= <-] & Hsame%hmg_eq_true). congruence.
    - destruct same_title; simplify_eq. split; [done|by intros (? & ? & ?)]. }
  intros a. rewrite !elem_of_union, !elem_of_add_if, elem_of_empty.
  rewrite !present_and_equal, !in_version_true, bool_decide_eq_true, Hs, Ht.
  cbn [Video.year Video.release_group Video.resolution Video.format].
  destruct a; cbn [Addic7edSubtitle.compared]; by_attribute.
Qed.

Lemma Ok_inj_iff {A : Type} (x y : A) : Ok x = Ok y <-> x = y.
Proof. split; congruence. Qed.

Lemma guarded_hmg_eq (v b : option unicode) (same : bool) :
  match v with
  | Some _ => hmg_eq v b
  | None => Ok false
  end = Ok same ->
  same = true <-> exists s, v = Some s /\ hmg_same (Some s) b.
Proof.
  destruct v as [s|]; intros Hsame.
  - destruct same.
    + apply hmg_eq_true in Hsame. split; [by exists s|done].
    + split; [done|]. intros (s' & [= <-] & Hs%hmg_eq_true). congruence.
  - simplify_eq. split; [done|by intros (? & ? & ?)].
Qed.

Lemma guarded_group_eq (v : option unicode) (group : outcome unicode) (same : bool) :
  match v with
  | Some _ =>
      x <- hmg v;;
      name <- group;;
      y <- hmg (Some name);;
      Ok (bool_decide (x = y))
  | None => Ok false
  end = Ok same ->
  same = true <->
  exists s name, v = Some s /\ group = Ok name /\ hmg_same (Some s) (Some name).
Proof.
  unfold hmg_same. destruct v as [s|];
    [|intros [= <-]; split; [done|by intros (? & ? & ? & _)]].
  destruct (hmg (Some s)) as [x|] eqn:Hx; cbn [bind]; [|discriminate].
  destruct group as [name|]; cbn [bind]; [|discriminate].
  destruct (hmg (Some name)) as [y|] eqn:Hy; cbn [bind]; [|discriminate].
  intros [= <-]. rewrite bool_decide_eq_true. split.
  - intros ->. exists s, name. split; [done|]. split; [done|]. by exists y.
  - intros (s' & name' & [= <-] & [= <-] & z & Hz & Hz'). congruence.
Qed.

Lemma opensubtitles_matches (self : OpenSubtitlesSubtitle.t) (video : Video.t)
    (matches : gset Score.symbol) :
  OpenSubtitlesSubtitle.compute_matches self video = Ok matches ->
  exists guessed : gset Score.symbol,
    OpenSubtitlesSubtitle.guessed self video = Ok guessed /\
    forall a, a ∈ matches <-> a ∈ guessed \/ OpenSubtitlesSubtitle.compared self video a.
Proof.
  unfold OpenSubtitlesSubtitle.compute_matches, OpenSubtitlesSubtitle.guessed.
  pose proof (elem_of_hash_imdb_id self video) as Hfirst.
  destruct (Video.is_episode video && _) eqn:He.
  { apply andb_prop in He as [Hep Hkind%bool_decide_eq_true].
    destruct video as [e|m]; [|done].
    cbn [Video.series Video.season Video.episode Video.title bind] in *.
    run_bind. rename x into same_series, Hx into Hseries.
    run_bind. rename x into same_title, Hx into Htitle.
    run_bind. run_bind. run_bind. intros [= <-].
    eexists. split; [done|].
    apply guarded_group_eq in Hseries, Htitle.
    intros a. rewrite elem_of_union. do 4 rewrite elem_of_add_if.
    rewrite Hfirst, !present_and_equal_r, Hseries, Htitle.
    destruct a; cbn [OpenSubtitlesSubtitle.compared Video.is_episode Video.is_movie
                       Video.series Video.season Video.episode Video.title];
      try setoid_rewrite Ok_inj_iff;
      by_attribute. }
  destruct (Video.is_movie video && _) eqn:Hm.
  { apply andb_prop in Hm as [Hmv Hkind%bool_decide_eq_true].
    destruct video as [e|m]; [done|].
    run_bind. rename x into same_title, Hx into Htitle.
    run_bind. run_bind. run_bind. intros [= <-].
    eexists. split; [done|].
    apply guarded_hmg_eq in Htitle.
    intros a. rewrite elem_of_union. do 2 rewrite elem_of_add_if.
    rewrite Hfirst, !present_and_equal_r, Htitle.
    destruct a; cbn [OpenSubtitlesSubtitle.compared Video.is_episode Video.is_movie
                       Video.series Video.season Video.episode Video.title];
      by_attribute. }
  intros [= <-]. eexists. split; [done|].
  apply andb_false_iff in He, Hm.
  rewrite bool_decide_eq_false in He, Hm.
  intros a. rewrite Hfirst, elem_of_empty.
  destruct a; cbn [OpenSubtitlesSubtitle.compared]; intuition congruence.
Qed.

End Compared.

(** C4, as the spec words it, fails: the addic7ed comparison of the year
    has no guard, so an episode with no year and a candidate with no year
    match on [year]. *)
Lemma year_matches_when_both_absent :
  let C := Model.no_show in
  Episode.year Model.episode = None /\
  Addic7edSubtitle.year Model.addic7ed_subtitle = None /\
  exists matches : gset Score.symbol,
    Addic7edSubtitle.compute_matches Model.addic7ed_subtitle (Video.IsEpisode Model.episode)
    = Ok matches /\
    Score.year ∈ matches.
Proof.
  intros C. split; [done|]. split; [done|].
  destruct (Addic7edSubtitle.compute_matches Model.addic7ed_subtitle
              (Video.IsEpisode Model.episode)) as [matches|e] eqn:Hrun.
  - exists matches. split; [done|].
    apply addic7ed_matches in Hrun as (e & guessed & [= <-] & _ & Hin).
    apply Hin. right. done.
  - by vm_compute in Hrun.
Qed.

(** In the same claim, "no error is raised" fails too: with no release
    name on the candidate, the guess of [OpenSubtitlesSubtitle] raises. *)
Example absent_release_name_raises :
  let C := Model.no_show in
  OpenSubtitlesSubtitle.compute_matches Model.unnamed_release (Video.IsMovie Model.movie)
  = Raise TypeError.
Proof. by vm_compute. Qed.

Section ComputeMatches.
Context {C : Collaborators}.

(** C4, amended: an attribute that a [compute_matches] returns and that
    its guesses did not add was added by its own comparison, and that
    needs the video's field and, for the exact and the containment
    comparisons, the candidate's field too; a fuzzy comparison hands the
    candidate's field to [hmg] as it is. The exception is the year of
    [Addic7edSubtitle]: it matches whenever the two years are equal, also
    when both are absent. With no recorded opensubtitles hash the
    comparison adds no [hash], and for an episode [OpenSubtitlesSubtitle]
    compares no year. *)
Theorem compute_matches_compared :
  (forall (self : Addic7edSubtitle.t) (video : Video.t) (matches : gset Score.symbol),
     Addic7edSubtitle.compute_matches self video = Ok matches ->
     exists (e : Episode.t) (guessed : gset Score.symbol),
       video = Video.IsEpisode e /\
       Addic7edSubtitle.guessed self video = Ok guessed /\
       (forall a, a ∈ matches <-> a ∈ guessed \/ Addic7edSubtitle.compared self e a) /\
       (Score.year ∈ matches <->
        Score.year ∈ guessed \/ Addic7edSubtitle.year self = Episode.year e)) /\
  (forall (self : OpenSubtitlesSubtitle.t) (video : Video.t) (matches : gset Score.symbol),
     OpenSubtitlesSubtitle.compute_matches self video = Ok matches ->
     exists guessed : gset Score.symbol,
       OpenSubtitlesSubtitle.guessed self video = Ok guessed /\
       (forall a, a ∈ matches <->
                  a ∈ guessed \/ OpenSubtitlesSubtitle.compared self video a) /\
       (Video.hashes video !! "opensubtitles" = None ->
        Score.hash ∈ matches -> Score.hash ∈ guessed) /\
       (Video.is_episode video = true ->
        Score.year ∈ matches -> Score.year ∈ guessed)).
Proof.
  split.
  - intros self video matches Hrun.
    apply addic7ed_matches in Hrun as (e & guessed & -> & Hguessed & Hin).
    exists e, guessed. split; [done|]. split; [done|]. split; [done|]. apply Hin.
  - intros self video matches Hrun.
    apply opensubtitles_matches in Hrun as (guessed & Hguessed & Hin).
    exists guessed. split; [done|]. split; [done|]. split.
    + intros Hnone [Hg|(h & Hh & _)]%Hin; [done|congruence].
    + intros Hep [Hg|[[Hmovie _] _]]%Hin; [done|].
      destruct video; done.
Qed.

End ComputeMatches.

Lemma compute_matches_compared_witness :
  let C := Model.no_show in
  exists (e : Episode.t) (guessed : gset Score.symbol),
    Video.IsEpisode Model.episode = Video.IsEpisode e /\
    Addic7edSubtitle.guessed Model.addic7ed_subtitle (Video.IsEpisode Model.episode)
    = Ok guessed /\
    (forall a, (a ∈ ({[Score.series; Score.season; Score.episode; Score.title; Score.year;
                      Score.release_group; Score.resolution; Score.format]}
                      : gset Score.symbol)) <->
               a ∈ guessed \/ Addic7edSubtitle.compared Model.addic7ed_subtitle e a) /\
    (Score.year ∈ ({[Score.series; Score.season; Score.episode; Score.title; Score.year;
                      Score.release_group; Score.resolution; Score.format]}
                      : gset Score.symbol) <->
     Score.year ∈ guessed
     \/ Addic7edSubtitle.year Model.addic7ed_subtitle = Episode.year e).
Proof.
  intros C.
  destruct (@compute_matches_compared C) as [Haddic7ed _].
  apply (Haddic7ed Model.addic7ed_subtitle (Video.IsEpisode Model.episode)).
  by vm_compute.
Defined.

(** ** [Addic7edProvider.query] *)

Section Query.
Context {C : Collaborators}.
Import Addic7edProvider.

Lemma tbind_assoc {A B D : Type} (m : traced A) (f : A -> traced B) (g : B -> traced D) :
  tbind (tbind m f) g = tbind m (fun a => tbind (f a) g).
Proof.
  destruct m as [ev [a|e]]; unfold tbind; simpl; [|done].
  destruct (f a) as [ev' [b|e]]; simpl; [|done].
  by rewrite app_assoc.
Qed.

Lemma tbind_pure_l {A B : Type} (a : A) (f : A -> traced B) : tbind (pure a) f = f a.
Proof. unfold tbind, pure. simpl. by destruct (f a). Qed.

(** The block on one form of the name goes down the four attempts on it. *)
Lemma look_up_attempts (show_ids : gmap unicode Z) (series_fix : unicode)
    (sub_year : option Z) :
  first_success show_ids (attempts series_fix sub_year)
  = tbind (look_up show_ids series_fix)
      (fun found =>
         pure ((fun '(show_id, sub_series) => (show_id, sub_series, sub_year)) <$> found)).
Proof.
  unfold look_up, attempts, first_success, ask, in_show_ids, search, tbind, pure.
  cbn [events result key].
  destruct (show_ids !! series_fix) as [id1|]; cbn; [done|].
  destruct (show_ids !! clean_series series_fix) as [id2|]; cbn; [done|].
  destruct (find_show_id series_fix None) as [[id3|]|e3]; cbn; [done| |done].
  destruct (find_show_id (clean_series series_fix) None) as [[id4|]|e4]; cbn; done.
Qed.

Lemma first_success_app (show_ids : gmap unicode Z) (plan1 plan2 : list (event * option Z)) :
  first_success show_ids (plan1 ++ plan2)
  = tbind (first_success show_ids plan1)
      (fun found =>
         match found with
         | Some found => pure (Some found)
         | None => first_success show_ids plan2
         end).
Proof.
  induction plan1 as [|[e sub_year] plan1 IH]; cbn [app first_success].
  - by rewrite tbind_pure_l.
  - rewrite IH.
    destruct (ask show_ids e) as [ev [[show_id|]|err]];
      destruct (first_success show_ids plan1) as [ev1 [found|err1]];
      unfold tbind, pure; cbn [events result];
      rewrite ?app_nil_r, ?app_assoc; done.
Qed.

Lemma query_show_id_plan (show_ids : gmap unicode Z) (series : unicode) (year : option Z) :
  query_show_id show_ids series year = first_success show_ids (plan series year).
Proof.
  unfold query_show_id, plan.
  rewrite !first_success_app, (look_up_attempts show_ids (lower series) None).
  assert (first_success show_ids
            (if decide (rm_par (lower series) = lower series) then []
             else attempts (rm_par (lower series)) None)
          = if decide (rm_par (lower series) = lower series) then pure None
            else tbind (look_up show_ids (rm_par (lower series)))
                   (fun found =>
                      pure ((fun '(show_id, sub_series) => (show_id, sub_series, None))
                              <$> found))) as ->.
  { case_decide; [done|apply look_up_attempts]. }
  destruct year as [y|].
  - rewrite look_up_attempts.
    destruct (look_up show_ids (rm_par (lower series) ++ u " (" ++ str y ++ u ")"))
      as [ev1 [[[id1 sub1]|]|err1]];
      destruct (look_up show_ids (lower series)) as [ev2 [[[id2 sub2]|]|err2]];
      case_decide;
      try destruct (look_up show_ids (rm_par (lower series))) as [ev3 [[[id3 sub3]|]|err3]];
      unfold tbind, pure; cbn [events result fmap option_fmap option_map];
      rewrite ?app_nil_r, ?app_assoc; done.
  - cbn [first_success].
    destruct (look_up show_ids (lower series)) as [ev2 [[[id2 sub2]|]|err2]];
      case_decide;
      try destruct (look_up show_ids (rm_par (lower series))) as [ev3 [[[id3 sub3]|]|err3]];
      unfold tbind, pure; cbn [events result fmap option_fmap option_map];
      rewrite ?app_nil_r, ?app_assoc; done.
Qed.

Lemma first_success_head (show_ids : gmap unicode Z) (e : event) (sub_year : option Z)
    (rest : list (event * option Z)) :
  head (events (first_success show_ids ((e, sub_year) :: rest))) = Some e.
Proof.
  cbn [first_success]. unfold tbind.
  destruct e as [k|s]; cbn [ask in_show_ids search events result].
  - by destruct (show_ids !! k).
  - by destruct (find_show_id s None) as [[id|]|err].
Qed.

(** When no attempt succeeds and none raises, every attempt of the plan was
    made, in the order of the plan. *)
Lemma first_success_None (show_ids : gmap unicode Z) (plan : list (event * option Z)) :
  result (first_success show_ids plan) = Ok None ->
  events (first_success show_ids plan) = fst <$> plan.
Proof.
  induction plan as [|[e sub_year] plan IH]; [done|].
  cbn [first_success]. unfold tbind.
  destruct e as [k|s]; cbn [ask in_show_ids search events result].
  - destruct (show_ids !! k); [done|]. intros Hnone. cbn. by rewrite IH.
  - destruct (find_show_id s None) as [[id|]|err]; [done| |done].
    intros Hnone. cbn. by rewrite IH.
Qed.

(** Listing the shows and loading the season page ask nothing. *)
Lemma query_events (languages : list Language) (series : unicode)
    (season episode year : option Z) (show_ids : gmap unicode Z) :
  get_show_ids = Ok show_ids ->
  events (query languages series season episode year)
  = events (query_show_id show_ids series year).
Proof.
  intros Hids. unfold query, lift, tbind. rewrite Hids. cbn [events result app].
  destruct (query_show_id show_ids series year) as [ev [[[[id sub] sub_year]|]|err]];
    cbn [events result]; [|by rewrite app_nil_r|done].
  destruct (season_page _); cbn; by rewrite !app_nil_r.
Qed.

Lemma query_first_key (languages : list Language) (series : unicode)
    (season episode : option Z) (y : Z) (show_ids : gmap unicode Z) :
  get_show_ids = Ok show_ids ->
  head (events (query languages series season episode (Some y)))
  = Some (InShowIds (rm_par (lower series) ++ u " (" ++ str y ++ u ")")).
Proof.
  intros Hids. rewrite (query_events _ _ _ _ _ show_ids Hids), query_show_id_plan.
  unfold plan, attempts. cbn [app]. apply first_success_head.
Qed.

(** The first key is the lower-cased name followed by the year only for a
    name that [rm_par] leaves as it is. *)
Lemma query_first_key_keeps_name (languages : list Language) (series : unicode)
    (season episode : option Z) (y : Z) (show_ids : gmap unicode Z) :
  get_show_ids = Ok show_ids ->
  head (events (query languages series season episode (Some y)))
  = Some (InShowIds (lower series ++ u " (" ++ str y ++ u ")")) <->
  rm_par (lower series) = lower series.
Proof.
  intros Hids. rewrite (query_first_key _ _ _ _ _ show_ids Hids). split.
  - intros [= Hkey]. by apply app_inv_tail in Hkey.
  - by intros ->.
Qed.

(** C5, amended: [query] resolves the series going down [plan], stopping
    at the first success: with a year, the lower-cased name with its
    parenthesized qualifier removed by [rm_par] and " (<year>)" appended,
    in the show index, then its cleaned form in the show index, then the
    two by a search on the server; then the same four on the lower-cased
    name as it is; then, if [rm_par] changes the lower-cased name, the
    same four on what it leaves. When all of them fail [query] returns the
    empty list, and no error. With a year, the first key tried is the one
    without the qualifier. *)
Theorem query_fallback_order (languages : list Language) (series : unicode)
    (season episode year : option Z) (show_ids : gmap unicode Z) :
  get_show_ids = Ok show_ids ->
  query_show_id show_ids series year = first_success show_ids (plan series year) /\
  events (query languages series season episode year)
    = events (query_show_id show_ids series year) /\
  (result (query_show_id show_ids series year) = Ok None ->
   result (query languages series season episode year) = Ok [] /\
   events (query languages series season episode year) = fst <$> plan series year) /\
  (forall y, year = Some y ->
     head (events (query languages series season episode year))
     = Some (InShowIds (rm_par (lower series) ++ u " (" ++ str y ++ u ")"))).
Proof.
  intros Hids.
  pose proof (query_events languages series season episode year show_ids Hids) as Hevents.
  split; [apply query_show_id_plan|]. split; [done|]. split.
  - intros Hnone. split.
    + unfold query, lift, tbind. rewrite Hids. cbn [events result app].
      by rewrite Hnone.
    + rewrite Hevents. rewrite query_show_id_plan in Hnone |- *.
      by apply first_success_None.
  - intros y ->. by apply (query_first_key _ _ _ _ _ show_ids).
Qed.

End Query.

(** C5, as the spec words it, fails on its example: for "Show Name (US)"
    and 2020 the first key asked of the show index is [show name (2020)],
    not [show name (us) (2020)]. *)
Lemma first_key_has_no_qualifier :
  let C := Model.one_show in
  let asked :=
    Addic7edProvider.events
      (Addic7edProvider.query [Model.eng] (u "Show Name (US)") (Some 1%Z) (Some 2%Z)
         (Some 2020%Z)) in
  head asked = Some (Addic7edProvider.InShowIds (u "show name (2020)")) /\
  head asked ≠ Some (Addic7edProvider.InShowIds (u "show name (us) (2020)")).
Proof.
  intros C asked.
  assert (head asked = Some (Addic7edProvider.InShowIds (u "show name (2020)"))) as Hhead
    by (by vm_compute).
  split; [done|]. rewrite Hhead. intros [=].
Qed.

Lemma query_fallback_order_witness :
  let C := Model.no_show in
  Addic7edProvider.result
    (Addic7edProvider.query [Model.eng] (u "Show Name (US)") (Some 1%Z) (Some 2%Z)
       (Some 2020%Z)) = Ok [] /\
  Addic7edProvider.events
    (Addic7edProvider.query [Model.eng] (u "Show Name (US)") (Some 1%Z) (Some 2%Z)
       (Some 2020%Z))
  = fst <$> Addic7edProvider.plan (u "Show Name (US)") (Some 2020%Z).
Proof.
  intros C.
  destruct (query_fallback_order [Model.eng] (u "Show Name (US)") (Some 1%Z) (Some 2%Z)
              (Some 2020%Z) ∅) as (_ & _ & Hempty & _).
  - by vm_compute.
  - apply Hempty. by vm_compute.
Defined.

Section QueryRows.
Context {C : Collaborators}.
Import Addic7edProvider.

Ltac run_index :=
  match goal with
  | |- context [index ?cells ?i] =>
      unfold index at 1;
      let cell := fresh "cell" in
      let Hcell := fresh "Hcell" in
      destruct (cells !! i) as [cell|] eqn:Hcell; cbn [bind]; [|discriminate]
  end.

Lemma query_row_kept (languages : list Language) (episode : option Z)
    (sub_series : unicode) (sub_year : option Z) (cells : list Tag.t)
    (subtitle : Addic7edSubtitle.t) :
  query_row languages episode sub_series sub_year cells = Ok (Some subtitle) ->
  kept languages episode cells subtitle.
Proof.
  unfold query_row, kept.
  run_index. rename cell into status, Hcell into Hstatus.
  case_bool_decide as Hcompleted; [discriminate|].
  run_index. rename cell into language, Hcell into Hlanguage.
  destruct (Tag.string language) as [[|c sub_language_str]|] eqn:Hstring; try discriminate.
  destruct (fromaddic7ed (c :: sub_language_str)) as [sub_language|] eqn:Hfrom;
    cbn [bind]; [|discriminate].
  run_index. run_index.
  destruct (Tag.string cell) as [sub_season_str|]; [|discriminate].
  destruct (Tag.string cell0) as [sub_episode_str|]; [|discriminate].
  destruct (int sub_season_str) as [sub_season|]; cbn [bind]; [|discriminate].
  destruct (int sub_episode_str) as [sub_episode|]; cbn [bind]; [|discriminate].
  destruct (bool_decide (Some sub_episode ≠ episode) || _) eqn:Hskip; [discriminate|].
  apply orb_false_elim in Hskip as [Hep%bool_decide_eq_false Hlang%bool_decide_eq_false].
  apply dec_stable in Hep, Hlang.
  repeat run_index.
  destruct (Tag.a_href _) as [sub_download_link|]; [|discriminate].
  destruct (Tag.a_href _) as [href|]; [|discriminate].
  intros [= <-]. cbn.
  exists status, language, (c :: sub_language_str).
  repeat (split; [done|]). subst episode. by eexists.
Qed.

(** A row with no language or an empty one gives no subtitle. *)
Lemma query_row_no_language (languages : list Language) (episode : option Z)
    (sub_series : unicode) (sub_year : option Z) (cells : list Tag.t) (language : Tag.t)
    (subtitle : Addic7edSubtitle.t) :
  cells !! 3 = Some language ->
  Tag.string language = None \/ Tag.string language = Some [] ->
  query_row languages episode sub_series sub_year cells ≠ Ok (Some subtitle).
Proof.
  intros Hcell Hempty Hrow.
  apply query_row_kept in Hrow
    as (_ & language' & sub_language_str & _ & _ & Hcell' & Hstring & Hne & _).
  simplify_eq. destruct Hempty; congruence.
Qed.

Lemma query_rows_kept (languages : list Language) (episode : option Z)
    (sub_series : unicode) (sub_year : option Z) (rows : list (list Tag.t))
    (before subtitles : list Addic7edSubtitle.t) (subtitle : Addic7edSubtitle.t) :
  query_rows languages episode sub_series sub_year rows before = Ok subtitles ->
  subtitle ∈ subtitles ->
  subtitle ∈ before \/
  exists cells, cells ∈ rows /\ kept languages episode cells subtitle.
Proof.
  revert before. induction rows as [|cells rows IH]; intros before; cbn [query_rows].
  - intros [= <-]. by left.
  - destruct (query_row languages episode sub_series sub_year cells)
      as [appended|] eqn:Hrow; cbn [bind]; [|discriminate].
    intros Hrest Hin.
    destruct (IH _ Hrest Hin) as [Hbefore|(cells' & Hcells & Hkept)].
    + destruct appended as [appended|]; [|by left].
      apply elem_of_app in Hbefore as [Hbefore|Hnew%list_elem_of_singleton]; [by left|].
      subst. right. exists cells. split; [by left|].
      by eapply query_row_kept.
    + right. exists cells'. split; [by right|done].
Qed.

(** C8: every subtitle [query] returns comes from a row of the season
    page whose status is [Completed], whose language cell is a non-empty
    string that names a requested language, and whose episode is the
    requested one; a row whose language cell is empty or has no string
    gives no subtitle. *)
Theorem query_keeps_language_rows (languages : list Language) (series : unicode)
    (season episode year : option Z) (subtitles : list Addic7edSubtitle.t) :
  result (query languages series season episode year) = Ok subtitles ->
  (forall subtitle, subtitle ∈ subtitles ->
     exists (link : unicode) (rows : list (list Tag.t)) (cells : list Tag.t),
       season_page link = Ok rows /\ cells ∈ rows /\
       kept languages episode cells subtitle) /\
  (forall sub_series sub_year cells language subtitle,
     cells !! 3 = Some language ->
     Tag.string language = None \/ Tag.string language = Some [] ->
     query_row languages episode sub_series sub_year cells ≠ Ok (Some subtitle)).
Proof.
  intros Hquery. split; [|intros; by eapply query_row_no_language].
  intros subtitle Hin. revert Hquery.
  unfold query, lift, tbind. cbn [events result].
  destruct get_show_ids as [show_ids|]; [|discriminate].
  destruct (query_show_id show_ids series year)
    as [ev [[[[show_id sub_series] sub_year]|]|err]]; cbn [events result].
  - destruct (season_page _) as [rows|] eqn:Hpage; cbn [events result]; [|discriminate].
    intros Hrows.
    destruct (query_rows_kept _ _ _ _ _ _ _ _ Hrows Hin) as [Hnil|(cells & Hcells & Hkept)].
    + by apply elem_of_nil in Hnil.
    + by eexists _, rows, cells.
  - intros [= <-]. by apply elem_of_nil in Hin.
  - discriminate.
Qed.

End QueryRows.

Lemma query_keeps_language_rows_witness :
  let C := Model.one_show in
  let subtitle :=
    Addic7edSubtitle.mk Model.eng (Some (u "show name")) (Some 1%Z) (Some 2%Z)
      (Some (u "Pilot")) None (Some (u "720p.HDTV-GRP")) false (u "/original/1/2")
      (u "http://www.addic7ed.com/serie/Show_Name/1/2/Pilot") in
  Addic7edProvider.result
    (Addic7edProvider.query [Model.eng] (u "Show Name") (Some 1%Z) (Some 2%Z) None)
  = Ok [subtitle] /\
  (forall subtitle', subtitle' ∈ [subtitle] ->
     exists (link : unicode) (rows : list (list Tag.t)) (cells : list Tag.t),
       season_page link = Ok rows /\ cells ∈ rows /\
       Addic7edProvider.kept [Model.eng] (Some 2%Z) cells subtitle').
Proof.
  intros C subtitle.
  assert (Addic7edProvider.result
            (Addic7edProvider.query [Model.eng] (u "Show Name") (Some 1%Z) (Some 2%Z) None)
          = Ok [subtitle]) as Hrun by (by vm_compute).
  split; [done|].
  apply (query_keeps_language_rows [Model.eng] (u "Show Name") (Some 1%Z) (Some 2%Z)
           None [subtitle] Hrun).
Defined.

(** ** The code run on examples *)

Example clean_series_example :
  let C := Model.no_show in
  clean_series (u "Marvel's Agents of S.H.I.E.L.D.  &   Co - X")
  = u "marvels agents of shield and co x".
Proof. by vm_compute. Qed.

(** The series and the title of an episode name: quote, series, quote,
    space, title. *)
Example series_re_example :
  OpenSubtitlesSubtitle.series_re_match (34%N :: u "Show Name" ++ 34%N :: u " Pilot")
  = Some (u "Show Name", u "Pilot") /\
  OpenSubtitlesSubtitle.series_re_match (u "Some Movie") = None.
Proof. by vm_compute. Qed.

(** The cascade of the spec's example, on a server that knows nothing. *)
Example query_asks_in_order :
  let C := Model.no_show in
  Addic7edProvider.events
    (Addic7edProvider.query [Model.eng] (u "Show Name (US)") (Some 1%Z) (Some 2%Z)
       (Some 2020%Z))
  = [ Addic7edProvider.InShowIds (u "show name (2020)");
      Addic7edProvider.InShowIds (u "show name (2020)");
      Addic7edProvider.FindShowId (u "show name (2020)");
      Addic7edProvider.FindShowId (u "show name (2020)");
      Addic7edProvider.InShowIds (u "show name (us)");
      Addic7edProvider.InShowIds (u "show name (us)");
      Addic7edProvider.FindShowId (u "show name (us)");
      Addic7edProvider.FindShowId (u "show name (us)");
      Addic7edProvider.InShowIds (u "show name");
      Addic7edProvider.InShowIds (u "show name");
      Addic7edProvider.FindShowId (u "show name");
      Addic7edProvider.FindShowId (u "show name") ].
Proof. by vm_compute. Qed.

(** The same query on a server that lists the show under its bare name:
    the ninth question is answered, and the one completed English row of
    episode 2 comes back, with the bare name and no year. *)
Example query_finds_bare_name :
  let C := Model.one_show in
  let answer :=
    Addic7edProvider.query [Model.eng] (u "Show Name (US)") (Some 1%Z) (Some 2%Z)
      (Some 2020%Z) in
  length (Addic7edProvider.events answer) = 9 /\
  last (Addic7edProvider.events answer) = Some (Addic7edProvider.InShowIds (u "show name")) /\
  Addic7edProvider.result answer = Ok [Model.addic7ed_subtitle].
Proof. by vm_compute. Qed.

Example checked_example :
  let C := Model.no_show in
  let ok : gmap string value := {["status" := VStr (u "200 OK")]} in
  let unknown : gmap string value := {["status" := VStr (u "418 Teapot")]} in
  checked ok = Ok ok /\
  checked unknown = Raise (OpenSubtitlesError (u "418 Teapot")) /\
  checked ∅ = Raise (KeyError "status").
Proof. by vm_compute. Qed.

(** * Further facts *)

(** ** [series_re] *)

Section SeriesRe.
Import OpenSubtitlesSubtitle.
Local Open Scope N_scope.

Ltac either := first [by left | by right].

(** The last group and the [$]: a line, with or without its newline. *)
Lemma series_re_title_Some (rest title : unicode) :
  series_re_title rest = Some title <->
  (newline ∉ title) /\ (rest = title \/ rest = title ++ [newline]).
Proof.
  unfold series_re_title. case_bool_decide as Hnl.
  - split.
    + intros [= <-]. by split; [|left].
    + intros [Ht [->| ->]]; [done|].
      exfalso. apply Hnl, elem_of_app. right. by left.
  - destruct (reverse rest) as [|c r] eqn:Hrev.
    { apply (f_equal reverse) in Hrev. rewrite reverse_involutive in Hrev.
      subst rest. split; [done|]. intros [Ht [<-|Heq]]; [done|].
      by destruct title. }
    assert (rest = reverse r ++ [c]) as Hrest.
    { apply (f_equal reverse) in Hrev. rewrite reverse_involutive in Hrev.
      by rewrite Hrev, reverse_cons. }
    case_bool_decide as Hc; cbn [andb].
    + case_bool_decide as Hr; subst c.
      * split.
        -- intros [= <-]. split; [by rewrite elem_of_reverse|by right].
        -- intros [Ht [->|Heq]]; [done|].
           rewrite Hrest in Heq. apply app_inj_tail in Heq as [-> _]. done.
      * split; [done|]. intros [Ht [->|Heq]]; [done|].
        rewrite Hrest in Heq. apply app_inj_tail in Heq as [<- _].
        by rewrite elem_of_reverse in Ht.
    + split; [done|]. intros [Ht [->|Heq]]; [done|].
      rewrite Hrest in Heq. apply app_inj_tail in Heq as [_ ->]. done.
Qed.

Lemma series_re_title_cons (c : N) (rest title : unicode) :
  series_re_title (c :: rest) = Some (c :: title) <->
  c ≠ newline /\ series_re_title rest = Some title.
Proof.
  rewrite !series_re_title_Some, not_elem_of_cons. split.
  - intros [[Hc Ht] [[= ->]|[= ->]]]; (split; [done|]); (split; [done|]); either.
  - intros [Hc [Ht [->| ->]]]; (split; [done|]); either.
Qed.

Lemma startswith_quote_space (s : unicode) :
  startswith s [34; 32] = true <-> exists r, s = 34 :: 32 :: r.
Proof.
  destruct s as [|a [|b r]]; cbn.
  - split; [done|by intros [? ?]].
  - rewrite andb_false_r. split; [done|by intros [? ?]].
  - rewrite andb_true_r, andb_true_iff, !bool_decide_eq_true. split.
    + intros [<- <-]. by eexists.
    + by intros [? [= -> -> _]].
Qed.

(** Without a quote and a space there is nothing to split at. *)
Lemma series_re_groups_None (s : unicode) :
  contains s [34; 32] = false -> series_re_groups s = None.
Proof.
  induction s as [|c s IH]; [done|].
  cbn [contains]. intros [Hstart Hrest]%orb_false_elim.
  cbn [series_re_groups]. rewrite (IH Hrest).
  destruct c as [|p]; [done|].
  destruct (decide (N.pos p = 34)) as [Hp|Hp].
  - injection Hp as ->. destruct s as [|c' s]; [done|].
    destruct (decide (c' = 32)) as [->|Hc'].
    + by cbn in Hstart.
    + destruct c' as [|p']; [done|].
      do 6 (destruct p' as [p'|p'|]; try done).
  - do 6 (destruct p as [p|p|]; try done).
Qed.

Lemma series_re_groups_cons (c : N) (s name title : unicode) :
  c ≠ newline -> series_re_groups s = Some (name, title) ->
  series_re_groups (c :: s) = Some (c :: name, title).
Proof.
  intros Hc Hs. cbn [series_re_groups]. rewrite Hs.
  by rewrite bool_decide_eq_false_2.
Qed.

Lemma series_re_groups_split (rest title : unicode) :
  series_re_groups (32 :: rest) = None ->
  series_re_title rest = Some title ->
  series_re_groups (34 :: 32 :: rest) = Some ([], title).
Proof.
  intros Hnone Htitle.
  change (series_re_groups (34 :: 32 :: rest))
    with (match series_re_groups (32 :: rest) with
          | Some (series_name, series_title) =>
              if bool_decide (34 = newline) then None
              else Some (34 :: series_name, series_title)
          | None => (fun series_title => ([], series_title)) <$> series_re_title rest
          end).
  by rewrite Hnone, Htitle.
Qed.

(** A quote and a space in the title leave a later place to split at. *)
Lemma series_re_groups_later (rest title : unicode) :
  series_re_title rest = Some title ->
  contains title [34; 32] = true ->
  is_Some (series_re_groups rest).
Proof.
  revert rest. induction title as [|c title IH]; intros rest Htitle; [done|].
  assert (exists rest', rest = c :: rest') as [rest' ->].
  { apply series_re_title_Some in Htitle as [_ [->| ->]]; by eexists. }
  apply series_re_title_cons in Htitle as [Hc Htitle].
  cbn [contains]. intros [Hstart|Hlater]%orb_true_iff.
  - apply startswith_quote_space in Hstart as [title' [= -> ->]].
    destruct rest' as [|c' rest'].
    { apply series_re_title_Some in Htitle as [_ [?|?]]; [done|by destruct title']. }
    assert (c' = 32) as ->.
    { apply series_re_title_Some in Htitle as [_ [?|?]]; by simplify_eq/=. }
    apply series_re_title_cons in Htitle as [_ Htitle].
    destruct (series_re_groups (32 :: rest')) as [[name t]|] eqn:Hgroups.
    + erewrite series_re_groups_cons; done.
    + erewrite series_re_groups_split; done.
  - destruct (IH rest' Htitle Hlater) as [[name t] Hgroups].
    erewrite series_re_groups_cons; done.
Qed.

Lemma series_re_groups_Some (s name title : unicode) :
  series_re_groups s = Some (name, title) ->
  (s = name ++ 34 :: 32 :: title \/ s = name ++ 34 :: 32 :: title ++ [newline]) /\
  (newline ∉ name) /\ (newline ∉ title) /\ contains title [34; 32] = false.
Proof.
  revert name. induction s as [|c s IH]; intros name; [done|].
  cbn [series_re_groups].
  destruct (series_re_groups s) as [[name' title']|] eqn:Hgroups.
  - case_bool_decide as Hc; [done|]. intros [= <- <-].
    destruct (IH name' eq_refl) as (Hs & Hname & Htitle & Hlast).
    split; [destruct Hs as [->| ->]; either|].
    split; [by apply not_elem_of_cons|done].
  - destruct c as [|p]; [done|].
    do 6 (destruct p as [p|p|]; try done).
    destruct s as [|c' rest]; [done|].
    destruct c' as [|p]; [done|].
    do 6 (destruct p as [p|p|]; try done).
    destruct (series_re_title rest) as [t|] eqn:Ht; [|done].
    intros [= <- <-].
    pose proof Ht as [Hnl Hrest]%series_re_title_Some.
    split; [destruct Hrest as [->| ->]; either|].
    split; [by intros ?%elem_of_nil|]. split; [done|].
    destruct (contains t [34; 32]) eqn:Hlater; [|done].
    destruct (series_re_groups_later rest t Ht Hlater) as [[name' t'] Hsome].
    cbn [series_re_groups] in Hgroups. rewrite Hsome in Hgroups.
    by rewrite bool_decide_eq_false_2 in Hgroups.
Qed.

Lemma series_re_groups_round_trip (name rest title : unicode) :
  newline ∉ name -> series_re_title rest = Some title ->
  contains title [34; 32] = false ->
  series_re_groups (name ++ 34 :: 32 :: rest) = Some (name, title).
Proof.
  intros Hname Htitle Hlast. induction name as [|c name IH].
  - apply series_re_groups_split; [|done].
    apply series_re_groups_None. cbn [contains startswith].
    rewrite bool_decide_eq_false_2 by done. cbn [andb orb].
    apply series_re_title_Some in Htitle as [Hnl [->| ->]]; [done|].
    clear -Hlast. induction title as [|c title IH]; [done|].
    cbn [contains] in Hlast. apply orb_false_elim in Hlast as [Hstart Hrest].
    cbn [app contains]. rewrite (IH Hrest), orb_false_r.
    destruct (startswith ((c :: title) ++ [newline]) [34; 32]) eqn:Hs; [|done].
    apply startswith_quote_space in Hs as [r Hr].
    destruct title as [|c' title]; [by injection Hr|].
    injection Hr as -> -> _. done.
  - apply not_elem_of_cons in Hname as [Hc Hname].
    cbn [app]. apply series_re_groups_cons; [done|by apply IH].
Qed.

Lemma series_re_match_round_trip (name title : unicode) :
  newline ∉ name -> newline ∉ title -> contains title [34; 32] = false ->
  series_re_match (34 :: name ++ 34 :: 32 :: title) = Some (name, title) /\
  series_re_match (34 :: name ++ 34 :: 32 :: title ++ [newline]) = Some (name, title).
Proof.
  intros Hname Htitle Hlast. cbn [series_re_match].
  split; apply series_re_groups_round_trip; try done;
    apply series_re_title_Some; split; try done; either.
Qed.

Lemma series_re_match_Some (s name title : unicode) :
  series_re_match s = Some (name, title) ->
  (s = 34 :: name ++ 34 :: 32 :: title \/
   s = 34 :: name ++ 34 :: 32 :: title ++ [newline]) /\
  (newline ∉ name) /\ (newline ∉ title) /\ contains title [34; 32] = false.
Proof.
  unfold series_re_match.
  destruct s as [|c s]; [done|].
  destruct c as [|p]; [done|].
  do 6 (destruct p as [p|p|]; try done).
  intros (Hs & Hrest)%series_re_groups_Some.
  split; [|done]. destruct Hs as [->| ->]; either.
Qed.

(** X1: for a candidate whose name is a quote, a series name, a quote and
    a space, a title and at most a newline, [series_name] and
    [series_title] give back the name and the title, when neither holds a
    newline and the title holds no quote followed by a space (34 is the
    quote, 32 the space). *)
Theorem series_name_title_round_trip (self : t) (name title : unicode) :
  newline ∉ name -> newline ∉ title -> contains title [34; 32] = false ->
  movie_name self = Some (34 :: name ++ 34 :: 32 :: title) \/
  movie_name self = Some (34 :: name ++ 34 :: 32 :: title ++ [newline]) ->
  series_name self = Ok name /\ series_title self = Ok title.
Proof.
  intros Hname Htitle Hlast Hmovie.
  destruct (series_re_match_round_trip name title Hname Htitle Hlast) as [Hplain Hline].
  unfold series_name, series_title, series_re_group.
  destruct Hmovie as [->| ->]; by rewrite ?Hplain, ?Hline.
Qed.

(** X2: when [series_name] and [series_title] return, the name of the
    candidate is a quote, the series name, a quote and a space, the title
    and at most a newline; the two hold no newline, and the series name
    takes all it can: no quote followed by a space is left in the title. *)
Theorem series_name_title_parts (self : t) (name title : unicode) :
  series_name self = Ok name ->
  series_title self = Ok title ->
  exists s,
    movie_name self = Some s /\
    (s = 34 :: name ++ 34 :: 32 :: title \/
     s = 34 :: name ++ 34 :: 32 :: title ++ [newline]) /\
    (newline ∉ name) /\ (newline ∉ title) /\ contains title [34; 32] = false.
Proof.
  unfold series_name, series_title, series_re_group.
  destruct (movie_name self) as [s|]; [|done].
  destruct (series_re_match s) as [[name' title']|] eqn:Hmatch; [|done].
  cbn [bind fst snd]. intros [= <-] [= <-].
  exists s. split; [done|]. by apply series_re_match_Some.
Qed.

End SeriesRe.

Lemma series_name_title_round_trip_witness :
  let self :=
    OpenSubtitlesSubtitle.mk Model.eng false (u "1951894259") (u "imdbid")
      (Some (u "episode")) None
      (Some (34%N :: u "Show Name" ++ 34%N :: 32%N :: u "Pilot"))
      (Some (u "Show.Name.S01E02")) None None (Some 1%Z) (Some 2%Z)
      (u "http://www.opensubtitles.org/en/subtitles/3") in
  OpenSubtitlesSubtitle.series_name self = Ok (u "Show Name") /\
  OpenSubtitlesSubtitle.series_title self = Ok (u "Pilot").
Proof.
  intros self.
  apply (series_name_title_round_trip self (u "Show Name") (u "Pilot")).
  - apply (bool_decide_unpack _). vm_compute. reflexivity.
  - apply (bool_decide_unpack _). vm_compute. reflexivity.
  - vm_compute. reflexivity.
  - left. reflexivity.
Defined.

Lemma series_name_title_parts_witness :
  let name := u "Show Name" ++ 34%N :: u " The Pilot" in
  let self :=
    OpenSubtitlesSubtitle.mk Model.eng false (u "1951894259") (u "imdbid")
      (Some (u "episode")) None
      (Some (34%N :: name ++ 34%N :: 32%N :: u "Episode"))
      (Some (u "Show.Name.S01E02")) None None (Some 1%Z) (Some 2%Z)
      (u "http://www.opensubtitles.org/en/subtitles/3") in
  exists s,
    OpenSubtitlesSubtitle.movie_name self = Some s /\
    (s = 34%N :: name ++ 34%N :: 32%N :: u "Episode" \/
     s = 34%N :: name ++ 34%N :: 32%N :: u "Episode" ++ [OpenSubtitlesSubtitle.newline]) /\
    (OpenSubtitlesSubtitle.newline ∉ name) /\
    (OpenSubtitlesSubtitle.newline ∉ u "Episode") /\
    contains (u "Episode") [34%N; 32%N] = false.
Proof.
  intros name self.
  apply (series_name_title_parts self name (u "Episode")).
  - vm_compute. reflexivity.
  - vm_compute. reflexivity.
Defined.

(** ** When [OpenSubtitlesSubtitle.compute_matches] does not return *)

Section ComputeMatchesRaises.
Context {C : Collaborators}.
Import OpenSubtitlesSubtitle.

(** X3: for a candidate without a release name, of the kind of the video,
    [compute_matches] never returns a match set: the guess on the release
    name is made whatever was compared before. *)
Theorem compute_matches_needs_release_name (self : t) (video : Video.t)
    (matches : gset Score.symbol) :
  kinds_agree self video ->
  movie_release_name self = None ->
  compute_matches self video ≠ Ok matches.
Proof.
  intros Hkinds Hname Hmatches.
  apply opensubtitles_matches in Hmatches as (guess & Hguess & _).
  unfold guessed, release_file in Hguess. rewrite Hname in Hguess.
  destruct Hkinds as [[Hep Hkind]|[Hmv Hkind]]; rewrite Hkind in Hguess.
  - rewrite Hep, bool_decide_eq_true_2 in Hguess by done. discriminate.
  - destruct video as [e|m]; [done|].
    cbn [Video.is_episode Video.is_movie andb] in Hguess.
    rewrite bool_decide_eq_true_2 in Hguess by done. discriminate.
Qed.

(** X4: for an episode with a series or a title, and a candidate of kind
    [episode] whose name is absent or not of the form [series_re] takes,
    [compute_matches] never returns a match set. *)
Theorem compute_matches_needs_series_re (self : t) (e : Episode.t)
    (matches : gset Score.symbol) (err : exn) :
  movie_kind self = Some (u "episode") ->
  is_Some (Episode.series e) \/ is_Some (Episode.title e) ->
  series_re_group self = Raise err ->
  compute_matches self (Video.IsEpisode e) ≠ Ok matches.
Proof.
  intros Hkind Hcompared Hgroup.
  unfold compute_matches, series_name, series_title.
  rewrite Hkind, Hgroup, bool_decide_eq_true_2 by done.
  cbn [Video.is_episode Video.series Video.season Video.episode Video.title andb bind].
  destruct (Episode.series e) as [s|] eqn:Hs.
  - by destruct (hmg (Some s)).
  - destruct Hcompared as [[? [=]]|[title ->]]. cbn [bind].
    by destruct (hmg (Some title)).
Qed.

End ComputeMatchesRaises.

Lemma compute_matches_needs_release_name_witness :
  let C := Model.no_show in
  OpenSubtitlesSubtitle.kinds_agree Model.unnamed_release (Video.IsMovie Model.movie) /\
  OpenSubtitlesSubtitle.compute_matches Model.unnamed_release (Video.IsMovie Model.movie)
  ≠ Ok ∅.
Proof.
  intros C.
  assert (OpenSubtitlesSubtitle.kinds_agree Model.unnamed_release
            (Video.IsMovie Model.movie)) as Hkinds by (right; split; reflexivity).
  split; [exact Hkinds|].
  apply (compute_matches_needs_release_name Model.unnamed_release
           (Video.IsMovie Model.movie) ∅ Hkinds).
  reflexivity.
Defined.

Lemma compute_matches_needs_series_re_witness :
  let C := Model.no_show in
  let self :=
    OpenSubtitlesSubtitle.mk Model.eng false (u "1951894259") (u "imdbid")
      (Some (u "episode")) None (Some (u "Show Name")) (Some (u "Show.Name.S01E02"))
      None None (Some 1%Z) (Some 2%Z) (u "http://www.opensubtitles.org/en/subtitles/3") in
  OpenSubtitlesSubtitle.compute_matches self (Video.IsEpisode Model.episode) ≠ Ok ∅.
Proof.
  intros C self.
  apply (compute_matches_needs_series_re self Model.episode ∅ AttributeError).
  - reflexivity.
  - left. by eexists.
  - vm_compute. reflexivity.
Defined.

(** ** [Addic7edProvider.get_show_ids] *)

Section GetShowIds.
Context {C : Collaborators}.
Import Addic7edProvider.

Lemma get_show_ids_loop_cons (show_str : option unicode) (href : unicode)
    (rest : list (option unicode * unicode)) (show_ids ids : gmap unicode Z) :
  get_show_ids_loop ((show_str, href) :: rest) show_ids = Ok ids <->
  exists show_code s,
    int_of_unicode (drop 6 href) = Some show_code /\ show_str = Some s /\
    get_show_ids_loop rest
      (<[clean_series s := show_code]> (<[lower s := show_code]> show_ids)) = Ok ids.
Proof.
  cbn [get_show_ids_loop]. unfold int.
  destruct (int_of_unicode (drop 6 href)) as [show_code|]; cbn [bind].
  - destruct show_str as [s|].
    + split; [by eexists _, _|]. by intros (? & ? & [= <-] & [= <-] & ?).
    + split; [done|]. by intros (? & ? & _ & ? & _).
  - split; [done|]. by intros (? & ? & ? & _).
Qed.


(** Where an entry of the index comes from. *)
Lemma get_show_ids_loop_entry (anchors : list (option unicode * unicode))
    (show_ids ids : gmap unicode Z) (key : unicode) (code : Z) :
  get_show_ids_loop anchors show_ids = Ok ids ->
  ids !! key = Some code ->
  show_ids !! key = Some code \/
  exists s href, (Some s, href) ∈ anchors /\ (key = lower s \/ key = clean_series s) /\
                 int (drop 6 href) = Ok code.
Proof.
  revert show_ids. induction anchors as [|[show_str href] rest IH]; intros show_ids.
  - intros [= <-]. by left.
  - intros (show_code & s & Hcode & -> & Hrest)%get_show_ids_loop_cons Hkey.
    destruct (IH _ Hrest Hkey) as [Hhere|(s' & href' & Hin & Hk & Hc)].
    + apply lookup_insert_Some in Hhere as [[<- <-]|[Hne Hhere]].
      { right. exists s, href. split; [by left|]. split; [by right|].
        unfold int. by rewrite Hcode. }
      apply lookup_insert_Some in Hhere as [[<- <-]|[Hne' Hhere]]; [|by left].
      right. exists s, href. split; [by left|]. split; [by left|].
      unfold int. by rewrite Hcode.
    + right. exists s', href'. split; [by right|done].
Qed.


Lemma get_show_ids_loop_total (anchors : list (option unicode * unicode))
    (show_ids : gmap unicode Z) :
  (exists ids, get_show_ids_loop anchors show_ids = Ok ids) <->
  Forall (fun anchor => is_Some (fst anchor)
                        /\ is_Some (int_of_unicode (drop 6 (snd anchor)))) anchors.
Proof.
  revert show_ids. induction anchors as [|[show_str href] rest IH]; intros show_ids.
  - split; [done|]. intros _. by eexists.
  - rewrite Forall_cons. setoid_rewrite get_show_ids_loop_cons. split.
    + intros (ids & show_code & s & Hcode & -> & Hrest).
      split; [split; by eexists|]. eapply IH. by eexists.
    + intros [[[s Hs] [show_code Hcode]] Hrest]. cbn [fst snd] in *.
      apply (IH (<[clean_series s := show_code]> (<[lower s := show_code]> show_ids)))
        in Hrest as [ids Hids].
      by exists ids, show_code, s.
Qed.

(** Every show of the page is in the index under both forms of its
    name. *)
Lemma get_show_ids_loop_keys (anchors : list (option unicode * unicode))
    (show_ids ids : gmap unicode Z) (s href : unicode) :
  get_show_ids_loop anchors show_ids = Ok ids ->
  (Some s, href) ∈ anchors ->
  is_Some (ids !! lower s) /\ is_Some (ids !! clean_series s).
Proof.
  revert show_ids. induction anchors as [|[show_str href'] rest IH]; intros show_ids.
  - by intros _ ?%elem_of_nil.
  - intros Hloop [[= <- <-]|Hin]%elem_of_cons; [|].
    + apply get_show_ids_loop_cons in Hloop as (show_code & s' & Hcode & [= <-] & Hrest).
      assert (forall key, is_Some ((<[clean_series s := show_code]>
                                      (<[lower s := show_code]> show_ids)) !! key) ->
                          is_Some (ids !! key)) as Hkeep.
      { clear -Hrest. revert Hrest.
        generalize (<[clean_series s := show_code]> (<[lower s := show_code]> show_ids)).
        induction rest as [|[show_str href] rest IH]; intros m.
        - by intros [= <-].
        - intros (code & s' & _ & _ & Hrest)%get_show_ids_loop_cons key Hkey.
          apply (IH _ Hrest). rewrite !lookup_insert_is_Some'. by do 2 right. }
      split; apply Hkeep; rewrite !lookup_insert_is_Some'; [right; by left|by left].
    + apply get_show_ids_loop_cons in Hloop as (show_code & s' & Hcode & _ & Hrest).
      by apply (IH _ Hrest).
Qed.

(** X5: every entry of the show index comes from an anchor of the shows
    page: its key is the lower-cased or the cleaned name of the show, its
    value the number after the first six characters of the link. *)
Theorem get_show_ids_entries (show_ids : gmap unicode Z) (key : unicode) (code : Z) :
  get_show_ids = Ok show_ids ->
  show_ids !! key = Some code ->
  exists anchors s href,
    shows_page = Ok anchors /\ (Some s, href) ∈ anchors /\
    (key = lower s \/ key = clean_series s) /\ int (drop 6 href) = Ok code.
Proof.
  unfold get_show_ids. destruct shows_page as [anchors|]; cbn [bind]; [|done].
  intros Hloop Hkey.
  destruct (get_show_ids_loop_entry _ _ _ _ _ Hloop Hkey) as [?|(s & href & ?)]; [done|].
  by exists anchors, s, href.
Qed.


(** X7: the index is built exactly when every anchor of the shows page has
    a string and a number after the first six characters of its link; one
    anchor that has not makes [get_show_ids] raise. *)
Theorem get_show_ids_all_or_nothing (anchors : list (option unicode * unicode)) :
  shows_page = Ok anchors ->
  (exists show_ids, get_show_ids = Ok show_ids) <->
  Forall (fun anchor => is_Some (fst anchor)
                        /\ is_Some (int_of_unicode (drop 6 (snd anchor)))) anchors.
Proof.
  unfold get_show_ids. intros ->. cbn [bind]. apply get_show_ids_loop_total.
Qed.

End GetShowIds.

Lemma get_show_ids_entries_witness :
  let C := Model.one_show in
  exists anchors s href,
    shows_page = Ok anchors /\ (Some s, href) ∈ anchors /\
    (u "show name" = lower s \/ u "show name" = clean_series s) /\
    int (drop 6 href) = Ok 123%Z.
Proof.
  intros C.
  apply (get_show_ids_entries {[u "show name" := 123%Z]} (u "show name") 123%Z).
  - vm_compute. reflexivity.
  - vm_compute. reflexivity.
Defined.


Lemma get_show_ids_all_or_nothing_witness :
  let C := Model.one_show in
  (exists show_ids, Addic7edProvider.get_show_ids = Ok show_ids) <->
  Forall (fun anchor => is_Some (fst anchor)
                        /\ is_Some (int_of_unicode (drop 6 (snd anchor))))
    [(Some (u "Show Name"), u "/show/123")].
Proof.
  intros C.
  apply (get_show_ids_all_or_nothing [(Some (u "Show Name"), u "/show/123")]).
  vm_compute. reflexivity.
Defined.

(** ** More on [Addic7edProvider.query] *)

Section QueryMore.
Context {C : Collaborators}.
Import Addic7edProvider.

(** X8: a series whose lower-cased name, or its cleaned form, is that of a
    show of the shows page is resolved, when no year is given, by one or
    two look-ups in the show index: no search is sent. *)
Theorem listed_show_needs_no_search (languages : list Language) (series : unicode)
    (season episode : option Z) (show_ids : gmap unicode Z)
    (anchors : list (option unicode * unicode)) (s href : unicode) :
  get_show_ids = Ok show_ids ->
  shows_page = Ok anchors ->
  (Some s, href) ∈ anchors ->
  lower series = lower s \/ clean_series (lower series) = clean_series s ->
  (events (query languages series season episode None) = [InShowIds (lower series)] \/
   events (query languages series season episode None)
   = [InShowIds (lower series); InShowIds (clean_series (lower series))]) /\
  exists show_id sub_series,
    result (query_show_id show_ids series None) = Ok (Some (show_id, sub_series, None)).
Proof.
  intros Hids Hpage Hin Hname.
  rewrite (query_events _ _ _ _ _ show_ids Hids).
  unfold get_show_ids in Hids. rewrite Hpage in Hids. cbn [bind] in Hids.
  destruct (get_show_ids_loop_keys _ _ _ _ _ Hids Hin) as [Hlower Hclean].
  unfold query_show_id, look_up, in_show_ids, tbind, pure. cbn [events result app].
  destruct (show_ids !! lower series) as [id1|] eqn:H1; cbn [events result app].
  { split; [by left|]. by eexists _, _. }
  destruct (show_ids !! clean_series (lower series)) as [id2|] eqn:H2;
    cbn [events result app].
  { split; [by right|]. by eexists _, _. }
  destruct Hname as [Hname|Hname]; rewrite <- Hname in *.
  - rewrite H1 in Hlower. by destruct Hlower.
  - rewrite H2 in Hclean. by destruct Hclean.
Qed.

Lemma first_success_search_error (show_ids : gmap unicode Z)
    (plan : list (event * option Z)) (k : unicode) (err : exn) :
  FindShowId k ∈ events (first_success show_ids plan) ->
  find_show_id k None = Raise err ->
  result (first_success show_ids plan) = Raise err /\
  last (events (first_success show_ids plan)) = Some (FindShowId k).
Proof.
  intros Hin Herr. induction plan as [|[e sub_year] plan IH].
  { by apply elem_of_nil in Hin. }
  revert Hin. cbn [first_success]. unfold tbind.
  destruct e as [key|s]; cbn [ask in_show_ids search events result].
  - destruct (show_ids !! key); cbn [pure events result app].
    + intros [?|?%elem_of_nil]%elem_of_cons; done.
    + intros [?|Hin]%elem_of_cons; [done|].
      destruct (IH Hin) as [Hres Hlast]. split; [done|].
      destruct (events (first_success show_ids plan)); [done|]. by rewrite last_cons_cons.
  - destruct (find_show_id s None) as [[id|]|err'] eqn:Hs; cbn [pure events result app].
    + intros [[= ->]|?%elem_of_nil]%elem_of_cons; [congruence|done].
    + intros [[= ->]|Hin]%elem_of_cons; [congruence|].
      destruct (IH Hin) as [Hres Hlast]. split; [done|].
      destruct (events (first_success show_ids plan)); [done|]. by rewrite last_cons_cons.
    + intros [[= ->]|?%elem_of_nil]%elem_of_cons; [|done].
      split; [congruence|done].
Qed.

(** X9: when a search that [query] sends raises, [query] raises the same
    and that search is the last thing it asks: the forms of the name that
    are left are not tried. *)
Theorem query_search_error (languages : list Language) (series : unicode)
    (season episode year : option Z) (show_ids : gmap unicode Z) (k : unicode)
    (err : exn) :
  get_show_ids = Ok show_ids ->
  FindShowId k ∈ events (query languages series season episode year) ->
  find_show_id k None = Raise err ->
  result (query languages series season episode year) = Raise err /\
  last (events (query languages series season episode year)) = Some (FindShowId k).
Proof.
  intros Hids Hin Herr.
  rewrite (query_events _ _ _ _ _ show_ids Hids) in *.
  rewrite query_show_id_plan in Hin.
  destruct (first_success_search_error _ _ _ _ Hin Herr) as [Hres Hlast].
  rewrite <- query_show_id_plan in Hres, Hlast. split; [|done].
  unfold query, lift, tbind. rewrite Hids. cbn [events result].
  by rewrite Hres.
Qed.

Lemma query_rows_outs (languages : list Language) (episode : option Z)
    (sub_series : unicode) (sub_year : option Z) (rows : list (list Tag.t))
    (before subtitles : list Addic7edSubtitle.t) :
  query_rows languages episode sub_series sub_year rows before = Ok subtitles <->
  exists outs,
    Forall2 (fun row out => query_row languages episode sub_series sub_year row = Ok out)
      rows outs /\
    subtitles = before ++ omap id outs.
Proof.
  revert before. induction rows as [|row rows IH]; intros before; cbn [query_rows].
  - split.
    + intros [= <-]. exists []. split; [constructor|]. by rewrite app_nil_r.
    + intros (outs & ->%Forall2_nil_inv_l & ->). by rewrite app_nil_r.
  - destruct (query_row languages episode sub_series sub_year row) as [out|err] eqn:Hrow;
      cbn [bind].
    + rewrite IH. split.
      * intros (outs & Hall & ->). exists (out :: outs). split; [by constructor|].
        destruct out; cbn; by rewrite <- ?app_assoc.
      * intros (outs & (out' & outs' & Hout & Hall & ->)%Forall2_cons_inv_l & ->).
        rewrite Hrow in Hout. injection Hout as <-.
        exists outs'. split; [done|]. destruct out; cbn; by rewrite <- ?app_assoc.
    + split; [done|].
      intros (outs & (out' & outs' & Hout & _)%Forall2_cons_inv_l & _). congruence.
Qed.

(** X10: the loop over the rows of the season page returns exactly when
    every row gives a subtitle or is skipped; the subtitles it returns are
    those of the rows that gave one, in the order of the page. *)
Theorem query_rows_in_page_order (languages : list Language) (episode : option Z)
    (sub_series : unicode) (sub_year : option Z) (rows : list (list Tag.t))
    (subtitles : list Addic7edSubtitle.t) :
  query_rows languages episode sub_series sub_year rows [] = Ok subtitles <->
  exists outs,
    Forall2 (fun row out => query_row languages episode sub_series sub_year row = Ok out)
      rows outs /\
    subtitles = omap id outs.
Proof. apply query_rows_outs. Qed.

Lemma query_rows_raise (languages : list Language) (episode : option Z)
    (sub_series : unicode) (sub_year : option Z) (pre post : list (list Tag.t))
    (cells : list Tag.t) (before : list Addic7edSubtitle.t) (err : exn) :
  Forall (fun row => exists out,
            query_row languages episode sub_series sub_year row = Ok out) pre ->
  query_row languages episode sub_series sub_year cells = Raise err ->
  query_rows languages episode sub_series sub_year (pre ++ cells :: post) before
  = Raise err.
Proof.
  intros Hpre Hrow. revert before.
  induction Hpre as [|row pre [out Hout] Hpre IH]; intros before;
    cbn [app query_rows].
  - by rewrite Hrow.
  - rewrite Hout. cbn [bind]. apply IH.
Qed.

(** X11: a completed row whose language is a name that
    [Language.fromaddic7ed] does not know makes the loop raise, whatever
    the episode and the languages asked for, and whatever episode the row
    is of. *)
Theorem unknown_language_fails_query (languages : list Language) (episode : option Z)
    (sub_series : unicode) (sub_year : option Z) (pre post : list (list Tag.t))
    (cells : list Tag.t) (status language : Tag.t) (sub_language_str : unicode)
    (err : exn) :
  Forall (fun row => exists out,
            query_row languages episode sub_series sub_year row = Ok out) pre ->
  cells !! 5 = Some status ->
  Tag.string status = Some (u "Completed") ->
  cells !! 3 = Some language ->
  Tag.string language = Some sub_language_str ->
  sub_language_str ≠ [] ->
  fromaddic7ed sub_language_str = Raise err ->
  query_rows languages episode sub_series sub_year (pre ++ cells :: post) [] = Raise err.
Proof.
  intros Hpre Hstatus Hcompleted Hlanguage Hstring Hne Hfrom.
  apply query_rows_raise; [done|].
  unfold query_row, index. rewrite Hstatus, Hlanguage. cbn [bind].
  rewrite Hcompleted, Hstring, bool_decide_eq_false_2 by (by intros []).
  destruct sub_language_str as [|c sub_language_str]; [done|].
  by rewrite Hfrom.
Qed.

Ltac run_index' :=
  match goal with
  | |- context [index ?cells ?i] =>
      unfold index at 1;
      let cell := fresh "cell" in
      let Hcell := fresh "Hcell" in
      destruct (cells !! i) as [cell|] eqn:Hcell; cbn [bind]; [|discriminate]
  end.

Lemma query_row_fields (languages : list Language) (episode : option Z)
    (sub_series : unicode) (sub_year : option Z) (cells : list Tag.t)
    (subtitle : Addic7edSubtitle.t) :
  query_row languages episode sub_series sub_year cells = Ok (Some subtitle) ->
  Addic7edSubtitle.series subtitle = Some sub_series /\
  Addic7edSubtitle.year subtitle = sub_year /\
  is_Some (Addic7edSubtitle.season subtitle).
Proof.
  unfold query_row.
  run_index'. case_bool_decide; [discriminate|].
  run_index'.
  destruct (Tag.string cell0) as [[|c sub_language_str]|]; try discriminate.
  destruct (fromaddic7ed (c :: sub_language_str)) as [sub_language|];
    cbn [bind]; [|discriminate].
  run_index'. run_index'.
  destruct (Tag.string cell1) as [sub_season_str|]; [|discriminate].
  destruct (Tag.string cell2) as [sub_episode_str|]; [|discriminate].
  destruct (int sub_season_str) as [sub_season|]; cbn [bind]; [|discriminate].
  destruct (int sub_episode_str) as [sub_episode|]; cbn [bind]; [|discriminate].
  destruct (bool_decide (Some sub_episode ≠ episode) || _); [discriminate|].
  repeat run_index'.
  destruct (Tag.a_href _) as [sub_download_link|]; [|discriminate].
  destruct (Tag.a_href _) as [href|]; [|discriminate].
  intros [= <-]. cbn. split; [done|]. split; [done|]. by eexists.
Qed.

Lemma query_rows_fields (languages : list Language) (episode : option Z)
    (sub_series : unicode) (sub_year : option Z) (rows : list (list Tag.t))
    (subtitles : list Addic7edSubtitle.t) (subtitle : Addic7edSubtitle.t) :
  query_rows languages episode sub_series sub_year rows [] = Ok subtitles ->
  subtitle ∈ subtitles ->
  Addic7edSubtitle.series subtitle = Some sub_series /\
  Addic7edSubtitle.year subtitle = sub_year /\
  is_Some (Addic7edSubtitle.season subtitle) /\
  Addic7edSubtitle.episode subtitle = episode /\
  is_Some episode /\
  Addic7edSubtitle.language subtitle ∈ languages.
Proof.
  intros Hrows Hin.
  pose proof Hrows as (outs & Hall & ->)%query_rows_outs.
  cbn [app] in Hin. apply list_elem_of_omap in Hin as (out & Hout & Hsome).
  unfold id in Hsome. subst out.
  apply list_elem_of_lookup in Hout as [i Hi].
  destruct (Forall2_lookup_r _ _ _ _ _ Hall Hi) as (row & Hrow & Hquery).
  pose proof (query_row_fields _ _ _ _ _ _ Hquery) as (? & ? & ?).
  apply query_row_kept in Hquery
    as (_ & _ & _ & _ & _ & _ & _ & _ & _ & ? & ? & ?).
  done.
Qed.

Lemma first_success_year (show_ids : gmap unicode Z) (plan : list (event * option Z))
    (show_id : Z) (sub_series : unicode) (sub_year : option Z) :
  result (first_success show_ids plan) = Ok (Some (show_id, sub_series, sub_year)) ->
  sub_year ∈ snd <$> plan.
Proof.
  induction plan as [|[e y] plan IH]; [done|].
  cbn [first_success]. unfold tbind.
  destruct (ask show_ids e) as [ev [[id|]|err]]; cbn [events result pure]; [| |done].
  - intros [= _ _ <-]. by left.
  - intros Hrest. right. by apply IH.
Qed.

Lemma plan_year (series : unicode) (year sub_year : option Z) :
  sub_year ∈ snd <$> plan series year -> sub_year = None \/ sub_year = year.
Proof.
  unfold plan, attempts. rewrite !fmap_app. intros Hin.
  repeat (apply elem_of_app in Hin as [Hin|Hin]).
  - destruct year as [y|]; [|by apply elem_of_nil in Hin].
    cbn in Hin. repeat (apply elem_of_cons in Hin as [->|Hin]); try by right.
    by apply elem_of_nil in Hin.
  - cbn in Hin. repeat (apply elem_of_cons in Hin as [->|Hin]); try by left.
    by apply elem_of_nil in Hin.
  - case_decide; [by apply elem_of_nil in Hin|].
    cbn in Hin. repeat (apply elem_of_cons in Hin as [->|Hin]); try by left.
    by apply elem_of_nil in Hin.
Qed.

(** What [query] returns: nothing, or what the loop over the rows of a
    season page returns for the series and the year the show was found
    with. *)
Lemma query_found (languages : list Language) (series : unicode)
    (season episode year : option Z) (subtitles : list Addic7edSubtitle.t) :
  result (query languages series season episode year) = Ok subtitles ->
  subtitles = [] \/
  exists (sub_series : unicode) (sub_year : option Z) (rows : list (list Tag.t)),
    (sub_year = None \/ sub_year = year) /\
    query_rows languages episode sub_series sub_year rows [] = Ok subtitles.
Proof.
  unfold query, lift, tbind. cbn [events result].
  destruct get_show_ids as [show_ids|]; [|discriminate].
  destruct (query_show_id show_ids series year)
    as [ev [[[[show_id sub_series] sub_year]|]|err]] eqn:Hfound; cbn [events result].
  - destruct (season_page _) as [rows|]; cbn [events result]; [|discriminate].
    intros Hrows. right. exists sub_series, sub_year, rows. split; [|done].
    apply (plan_year series). apply (first_success_year show_ids _ show_id sub_series).
    by rewrite <- query_show_id_plan, Hfound.
  - intros [= <-]. by left.
  - discriminate.
Qed.

(** X12: the subtitles of one [query] all carry the same series string
    and the same year, which is the year asked for or [None]; each has a
    season number, the episode asked for and a language asked for. *)
Theorem query_subtitle_fields (languages : list Language) (series : unicode)
    (season episode year : option Z) (subtitles : list Addic7edSubtitle.t) :
  result (query languages series season episode year) = Ok subtitles ->
  exists (sub_series : unicode) (sub_year : option Z),
    (sub_year = None \/ sub_year = year) /\
    forall subtitle, subtitle ∈ subtitles ->
      Addic7edSubtitle.series subtitle = Some sub_series /\
      Addic7edSubtitle.year subtitle = sub_year /\
      is_Some (Addic7edSubtitle.season subtitle) /\
      Addic7edSubtitle.episode subtitle = episode /\
      is_Some episode /\
      Addic7edSubtitle.language subtitle ∈ languages.
Proof.
  intros [->|(sub_series & sub_year & rows & Hyear & Hrows)]%query_found.
  - exists [], None. split; [by left|]. by intros ? ?%elem_of_nil.
  - exists sub_series, sub_year. split; [done|].
    intros subtitle Hin. by eapply query_rows_fields.
Qed.

(** ** [Addic7edProvider.list_subtitles] *)

Lemma list_subtitles_query (video : Video.t) (languages : list Language)
    (subtitles : list Addic7edSubtitle.t) :
  result (list_subtitles video languages) = Ok subtitles ->
  exists (e : Episode.t) (series : unicode),
    video = Video.IsEpisode e /\ Episode.series e = Some series /\
    result (query languages series (Episode.season e) (Episode.episode e) (Episode.year e))
    = Ok subtitles.
Proof.
  unfold list_subtitles. destruct video as [e|m]; [|discriminate].
  cbn [Video.series Video.season Video.episode Video.year].
  unfold lift, tbind. cbn [events result app].
  destruct (Episode.series e) as [series|] eqn:Hseries.
  - intros Hquery. by exists e, series.
  - by destruct get_show_ids.
Qed.

(** X13: a subtitle that [list_subtitles] returns for a video matches it
    on [episode], and on [year] when the video has no year, whenever the
    matches of the two are computed. *)
Theorem listed_subtitle_matches (video : Video.t) (languages : list Language)
    (subtitles : list Addic7edSubtitle.t) (subtitle : Addic7edSubtitle.t)
    (matches : gset Score.symbol) :
  result (list_subtitles video languages) = Ok subtitles ->
  subtitle ∈ subtitles ->
  Addic7edSubtitle.compute_matches subtitle video = Ok matches ->
  Score.episode ∈ matches /\ (Video.year video = None -> Score.year ∈ matches).
Proof.
  intros (e & series & -> & Hseries & Hquery)%list_subtitles_query Hin Hmatches.
  apply query_found in Hquery as [->|(sub_series & sub_year & rows & Hyear & Hrows)];
    [by apply elem_of_nil in Hin|].
  destruct (query_rows_fields _ _ _ _ _ _ _ Hrows Hin)
    as (_ & Hsub_year & _ & Hepisode & [n Hn] & _).
  apply addic7ed_matches in Hmatches as (e' & guess & [= <-] & _ & Hiff).
  split.
  - apply Hiff. right. cbn [Addic7edSubtitle.compared]. exists n. by rewrite Hepisode.
  - cbn [Video.year]. intros Hnone. apply Hiff. right. cbn [Addic7edSubtitle.compared].
    rewrite Hsub_year, Hnone. destruct Hyear as [->| ->]; done.
Qed.

End QueryMore.

Lemma listed_show_needs_no_search_witness :
  let C := Model.one_show in
  let asked :=
    Addic7edProvider.events
      (Addic7edProvider.query [Model.eng] (u "SHOW NAME") (Some 1%Z) (Some 2%Z) None) in
  (asked = [Addic7edProvider.InShowIds (lower (u "SHOW NAME"))] \/
   asked = [Addic7edProvider.InShowIds (lower (u "SHOW NAME"));
            Addic7edProvider.InShowIds (clean_series (lower (u "SHOW NAME")))]) /\
  exists show_id sub_series,
    Addic7edProvider.result
      (Addic7edProvider.query_show_id {[u "show name" := 123%Z]} (u "SHOW NAME") None)
    = Ok (Some (show_id, sub_series, None)).
Proof.
  intros C asked.
  apply (listed_show_needs_no_search [Model.eng] (u "SHOW NAME") (Some 1%Z) (Some 2%Z)
           {[u "show name" := 123%Z]} [(Some (u "Show Name"), u "/show/123")]
           (u "Show Name") (u "/show/123")).
  - vm_compute. reflexivity.
  - vm_compute. reflexivity.
  - apply (bool_decide_unpack _). vm_compute. reflexivity.
  - left. vm_compute. reflexivity.
Defined.

Lemma query_search_error_witness :
  let C := Model.failing_search in
  let run :=
    Addic7edProvider.query [Model.eng] (u "Show Name (US)") (Some 1%Z) (Some 2%Z) None in
  Addic7edProvider.result run = Raise (Addic7edProvider.request_failed 503) /\
  last (Addic7edProvider.events run)
  = Some (Addic7edProvider.FindShowId (u "show name (us)")).
Proof.
  intros C run.
  apply (query_search_error [Model.eng] (u "Show Name (US)") (Some 1%Z) (Some 2%Z) None
           ∅ (u "show name (us)") (Addic7edProvider.request_failed 503)).
  - vm_compute. reflexivity.
  - apply (bool_decide_unpack _). vm_compute. reflexivity.
  - vm_compute. reflexivity.
Defined.

Lemma unknown_language_fails_query_witness :
  let C := Model.one_show in
  Addic7edProvider.query_rows [Model.eng] (Some 2%Z) (u "show name") None
    ([Model.in_progress_row] ++ Model.unknown_language_row :: [Model.completed_row]) []
  = Raise LanguageReverseError.
Proof.
  intros C.
  apply (unknown_language_fails_query [Model.eng] (Some 2%Z) (u "show name") None
           [Model.in_progress_row] [Model.completed_row] Model.unknown_language_row
           (Model.cell "Completed") (Model.cell "Klingon") (u "Klingon")).
  - apply List.Forall_cons; [|apply List.Forall_nil].
    exists None. vm_compute. reflexivity.
  - reflexivity.
  - reflexivity.
  - reflexivity.
  - reflexivity.
  - discriminate.
  - vm_compute. reflexivity.
Defined.

Lemma query_subtitle_fields_witness :
  let C := Model.one_show in
  let subtitle :=
    Addic7edSubtitle.mk Model.eng (Some (u "show name")) (Some 1%Z) (Some 2%Z)
      (Some (u "Pilot")) None (Some (u "720p.HDTV-GRP")) false (u "/original/1/2")
      (u "http://www.addic7ed.com/serie/Show_Name/1/2/Pilot") in
  exists (sub_series : unicode) (sub_year : option Z),
    (sub_year = None \/ sub_year = Some 2020%Z) /\
    forall subtitle', subtitle' ∈ [subtitle] ->
      Addic7edSubtitle.series subtitle' = Some sub_series /\
      Addic7edSubtitle.year subtitle' = sub_year /\
      is_Some (Addic7edSubtitle.season subtitle') /\
      Addic7edSubtitle.episode subtitle' = Some 2%Z /\
      is_Some (Some 2%Z) /\
      Addic7edSubtitle.language subtitle' ∈ [Model.eng].
Proof.
  intros C subtitle.
  apply (query_subtitle_fields [Model.eng] (u "Show Name") (Some 1%Z) (Some 2%Z)
           (Some 2020%Z) [subtitle]).
  vm_compute. reflexivity.
Defined.

Lemma listed_subtitle_matches_witness :
  let C := Model.one_show in
  let video := Video.IsEpisode Model.episode in
  let matches : gset Score.symbol :=
    {[Score.series; Score.season; Score.episode; Score.title; Score.year;
      Score.release_group; Score.resolution; Score.format]} in
  Addic7edProvider.result (Addic7edProvider.list_subtitles video [Model.eng])
  = Ok [Model.addic7ed_subtitle] /\
  Score.episode ∈ matches /\ (Video.year video = None -> Score.year ∈ matches).
Proof.
  intros C video matches.
  assert (Addic7edProvider.result (Addic7edProvider.list_subtitles video [Model.eng])
          = Ok [Model.addic7ed_subtitle]) as Hlist by (vm_compute; reflexivity).
  split; [exact Hlist|].
  apply (listed_subtitle_matches video [Model.eng] [Model.addic7ed_subtitle]
           Model.addic7ed_subtitle matches Hlist).
  - constructor.
  - vm_compute. reflexivity.
Defined.

(** ** The calls of [OpenSubtitlesProvider] *)

Section OpenSubtitlesCalls.
Context {C : Collaborators} {S : ServerProxy}.
Import OpenSubtitlesCalls.

Ltac run_bind' :=
  match goal with
  | |- context [bind ?m _] =>
      let x := fresh "x" in
      let Hx := fresh "Hx" in
      destruct m as [x|] eqn:Hx; cbn [bind]; [|try discriminate]
  end.

(** X14: what [list_subtitles] searches for does not depend on the name
    of the file nor on the path separator: two videos of the same kind
    with the same hashes, size, ids, title, series, season and episode give
    the same call. *)
Theorem list_subtitles_ignores_name (sep sep' : N) (token : value)
    (video video' : Video.t) (languages : list Language) :
  Video.is_movie video = Video.is_movie video' ->
  Video.hashes video = Video.hashes video' ->
  Video.size video = Video.size video' ->
  Video.imdb_id video = Video.imdb_id video' ->
  Video.title video = Video.title video' ->
  Video.series video = Video.series video' ->
  Video.season video = Video.season video' ->
  Video.episode video = Video.episode video' ->
  list_subtitles sep token video languages = list_subtitles sep' token video' languages.
Proof.
  unfold list_subtitles, list_subtitles_arguments.
  destruct video as [e|m], video' as [e'|m']; try discriminate;
    cbn [Video.is_movie Video.hashes Video.size Video.imdb_id Video.title Video.series
           Video.season Video.episode];
    intros _ -> -> -> Htitle Hseries Hseason Hepisode.
  - injection Hseries as ->. injection Hseason as ->. by injection Hepisode as ->.
  - by rewrite Htitle.
Qed.

(** X15: a video that has no recorded hash or no size, no IMDb id, and no
    title (a movie) or no series (an episode) cannot be searched for:
    [list_subtitles] raises before it calls the server, although the video
    has a file name. *)
Theorem list_subtitles_missing_parameter (sep : N) (token : value) (video : Video.t)
    (languages : list Language) :
  Video.hashes video !! "opensubtitles" = None \/ Video.size video = None ->
  Video.imdb_id video = None ->
  match video with
  | Video.IsEpisode e => Episode.series e
  | Video.IsMovie m => Movie.title m
  end = None ->
  list_subtitles sep token video languages
  = Raise (ValueError "One or more parameter missing").
Proof.
  unfold list_subtitles, list_subtitles_arguments, query,
    OpenSubtitlesProvider.query_searches.
  intros Hhash -> Htext.
  destruct video as [e|m];
    cbn [Video.is_movie Video.title] in *; rewrite Htext.
  - destruct Hhash as [->| ->]; [done|].
    by destruct (_ !! "opensubtitles").
  - destruct Hhash as [->| ->]; [done|].
    by destruct (_ !! "opensubtitles").
Qed.

Lemma query_subtitles_outs (data : list value) (before subtitles : list subtitle) :
  query_subtitles data before = Ok subtitles <->
  exists appended,
    Forall2 (fun rsp sub => query_subtitle rsp = Ok sub) data appended /\
    subtitles = before ++ appended.
Proof.
  revert before. induction data as [|rsp data IH]; intros before; cbn [query_subtitles].
  - split.
    + intros [= <-]. exists []. split; [constructor|]. by rewrite app_nil_r.
    + intros (appended & ->%Forall2_nil_inv_l & ->). by rewrite app_nil_r.
  - destruct (query_subtitle rsp) as [sub|err] eqn:Hrsp; cbn [bind].
    + rewrite IH. split.
      * intros (appended & Hall & ->). exists (sub :: appended).
        split; [by constructor|]. by rewrite <- app_assoc.
      * intros (appended & (sub' & rest & Hsub & Hall & ->)%Forall2_cons_inv_l & ->).
        rewrite Hrsp in Hsub. injection Hsub as <-.
        exists rest. split; [done|]. by rewrite <- app_assoc.
    + split; [done|].
      intros (appended & (sub' & rest & Hsub & _)%Forall2_cons_inv_l & _). congruence.
Qed.

(** X16: when [query] returns, the server has answered the searches with
    a status that starts with 200; the result is empty when the [data] of
    the response is false, and else [data] is a list and the result has
    one subtitle for each of its rows, in their order: no row is left
    out. *)
Theorem query_one_subtitle_per_row (token : value) (languages : list Language)
    (hash : option unicode) (size imdb_id : option Z) (text : option unicode)
    (season episode : option Z) (subtitles : list subtitle) :
  query token languages hash size imdb_id text season episode = Ok subtitles ->
  exists searches response data,
    OpenSubtitlesProvider.query_searches languages hash size imdb_id text season episode
    = Ok searches /\
    SearchSubtitles token searches = Ok response /\
    status_code response = Ok 200%Z /\
    response !! "data" = Some data /\
    (falsy data = true /\ subtitles = [] \/
     exists rows, data = VList rows /\ rows ≠ [] /\
                  Forall2 (fun rsp sub => query_subtitle rsp = Ok sub) rows subtitles).
Proof.
  unfold query, getitem.
  run_bind'. rename x into searches.
  run_bind'. rename x into response.
  run_bind'. apply checked_Ok in Hx1 as [-> Hstatus].
  destruct (response !! "data") as [data|] eqn:Hdata; cbn [bind]; [|discriminate].
  intros Hrows. exists searches, response, data. do 4 (split; [done|]).
  destruct (falsy data) eqn:Hfalsy; [left; by simplify_eq|].
  right. destruct data as [|n|s|rows|items]; try discriminate.
  cbn [iterate bind] in Hrows.
  apply query_subtitles_outs in Hrows as (appended & Hall & ->).
  exists rows. split; [done|]. split; [|done].
  cbn [falsy] in Hfalsy. by apply bool_decide_eq_false in Hfalsy.
Qed.

Lemma logged_Ok (rsp : value) (keys : list string) :
  logged rsp keys = Ok tt ->
  forall key, key ∈ keys -> exists v, subscript rsp key = Ok v.
Proof.
  induction keys as [|k keys IH]; cbn [logged].
  - by intros _ ? ?%elem_of_nil.
  - destruct (subscript rsp k) as [v|] eqn:Hk; cbn [bind]; [|discriminate].
    intros Hrest key [->|Hin]%elem_of_cons; [by exists v|by apply IH].
Qed.

(** X17: a row gives a subtitle only if it is a [dict] that has every key
    the loop reads: the thirteen it stores, and [SubAddDate], [MovieFPS]
    and [SeriesIMDBParent], which go to the debug line only. *)
Theorem query_subtitle_needs_keys (rsp : value) (sub : subtitle) :
  query_subtitle rsp = Ok sub ->
  exists items,
    rsp = VDict items /\
    forall key, key ∈ logged_keys ++ ["IDSubtitleFile"; "SubtitlesLink"] ->
                is_Some ((list_to_map items : gmap string value) !! key).
Proof.
  unfold query_subtitle. run_bind'. destruct x.
  pose proof (logged_Ok _ _ Hx) as Hlogged.
  do 19 run_bind'. intros _.
  destruct rsp as [| | | |items];
    try (destruct (Hlogged "SubAddDate") as [? [=]]; by left).
  exists items. split; [done|].
  assert (forall key v, subscript (VDict items) key = Ok v ->
                        is_Some ((list_to_map items : gmap string value) !! key)) as Hsome.
  { intros key v. unfold subscript, getitem.
    destruct (list_to_map items !! key); [by eexists|done]. }
  intros key [Hin|Hin]%elem_of_app.
  - destruct (Hlogged key Hin) as [v Hv]. by eapply Hsome.
  - apply elem_of_cons in Hin as [->|Hin]; [eapply Hsome; eassumption|].
    apply list_elem_of_singleton in Hin as ->. eapply Hsome; eassumption.
Qed.

(** X18: [initialize] returns only when the login was answered with a
    status that starts with 200, and then the token of that response;
    [terminate] and [no_operation] return only when their call was
    answered with such a status. *)
Theorem calls_return_on_status_200 :
  (forall token,
     initialize = Ok token ->
     exists response,
       LogIn [] [] (u "eng") (u "subliminal v" ++ version) = Ok response /\
       status_code response = Ok 200%Z /\ response !! "token" = Some token) /\
  (forall token,
     terminate token = Ok tt ->
     exists response, LogOut token = Ok response /\ status_code response = Ok 200%Z) /\
  (forall token,
     no_operation token = Ok tt ->
     exists response, NoOperation token = Ok response /\ status_code response = Ok 200%Z).
Proof.
  split; [|split]; intros token.
  - unfold initialize, getitem. run_bind'. run_bind'.
    apply checked_Ok in Hx0 as [-> Hstatus].
    destruct (x !! "token") as [v|] eqn:Htoken; [|discriminate].
    intros [= <-]. by exists x.
  - unfold terminate. run_bind'. run_bind'.
    apply checked_Ok in Hx0 as [-> Hstatus]. intros _. by exists x.
  - unfold no_operation. run_bind'. run_bind'.
    apply checked_Ok in Hx0 as [-> Hstatus]. intros _. by exists x.
Qed.

End OpenSubtitlesCalls.

Lemma list_subtitles_ignores_name_witness :
  let C := Model.no_show in
  let S := Model.server_proxy (VList [Model.found_row]) in
  OpenSubtitlesCalls.list_subtitles 47%N VNone (Video.IsMovie Model.movie) [Model.eng]
  = OpenSubtitlesCalls.list_subtitles 92%N VNone (Video.IsMovie Model.renamed_movie)
      [Model.eng].
Proof.
  intros C S.
  apply (list_subtitles_ignores_name 47%N 92%N VNone (Video.IsMovie Model.movie)
           (Video.IsMovie Model.renamed_movie) [Model.eng]); reflexivity.
Defined.

Lemma list_subtitles_missing_parameter_witness :
  let C := Model.no_show in
  let S := Model.server_proxy (VList [Model.found_row]) in
  OpenSubtitlesCalls.list_subtitles 47%N VNone (Video.IsMovie Model.unnamed_movie)
    [Model.eng]
  = Raise (ValueError "One or more parameter missing").
Proof.
  intros C S.
  apply (list_subtitles_missing_parameter 47%N VNone (Video.IsMovie Model.unnamed_movie)
           [Model.eng]).
  - left. reflexivity.
  - reflexivity.
  - reflexivity.
Defined.

Lemma query_one_subtitle_per_row_witness :
  let C := Model.no_show in
  let S := Model.server_proxy (VList [Model.found_row; Model.found_row]) in
  exists searches response data,
    OpenSubtitlesProvider.query_searches [Model.eng] None None (Some 7654321%Z) None
      None None = Ok searches /\
    SearchSubtitles VNone searches = Ok response /\
    status_code response = Ok 200%Z /\
    response !! "data" = Some data /\
    (falsy data = true /\ [Model.found_subtitle; Model.found_subtitle] = [] \/
     exists rows, data = VList rows /\ rows ≠ [] /\
                  Forall2 (fun rsp sub => OpenSubtitlesCalls.query_subtitle rsp = Ok sub)
                    rows [Model.found_subtitle; Model.found_subtitle]).
Proof.
  intros C S.
  apply (query_one_subtitle_per_row VNone [Model.eng] None None (Some 7654321%Z) None
           None None [Model.found_subtitle; Model.found_subtitle]).
  vm_compute. reflexivity.
Defined.

Lemma query_subtitle_needs_keys_witness :
  let C := Model.no_show in
  let S := Model.server_proxy VNone in
  exists items,
    Model.found_row = VDict items /\
    forall key,
      key ∈ OpenSubtitlesCalls.logged_keys ++ ["IDSubtitleFile"; "SubtitlesLink"] ->
      is_Some ((list_to_map items : gmap string value) !! key).
Proof.
  intros C S.
  apply (query_subtitle_needs_keys Model.found_row Model.found_subtitle).
  vm_compute. reflexivity.
Defined.

(** ** The session of [Addic7edProvider] *)

Section Addic7edSession.
Context {S : Addic7edProvider.Session}.
Import Addic7edProvider.







End Addic7edSession.



(** ** What [clean_series] leaves *)

Section CleanSeriesMore.
Context {C : Collaborators}.
Local Open Scope N_scope.

Lemma contains_two_spaces (t : unicode) (i : nat) :
  t !! i = Some 32 -> t !! Datatypes.S i = Some 32 -> contains t [32; 32] = true.
Proof.
  revert i. induction t as [|c t IH]; intros i; [done|].
  destruct i as [|i].
  - cbn [lookup list_lookup]. intros [= ->]. destruct t as [|c' t]; [done|].
    cbn. by intros [= ->].
  - intros Hi Hi'. cbn [contains]. rewrite (IH i) by done. apply orb_true_r.
Qed.

(** X22: a cleaned name holds ASCII characters only, no capital letter,
    no ampersand, none of the eight symbols, and no two spaces in a row. *)
Theorem clean_series_characters (s : unicode) :
  Forall (fun c => c < 128 /\ ~ (65 <= c <= 90) /\ c ∉ u "&?!.',/:-") (clean_series s) /\
  forall i : nat, ~ (clean_series s !! i = Some 32
                     /\ clean_series s !! Datatypes.S i = Some 32).
Proof.
  destruct (clean_series_cleaned s) as [Hchars Hspaces]. split.
  - eapply Forall_impl; [exact Hchars|].
    intros c (Hascii & Hlower & Hamp & Hsym). split; [done|]. split.
    + intros [Hlo Hhi]. unfold ascii_lower in Hlower.
      apply N.leb_le in Hlo, Hhi. rewrite Hlo, Hhi in Hlower. cbn in Hlower. lia.
    + intros [->|Hin]%elem_of_cons; [done|]. by apply Hsym.
  - intros i [Hi Hi']. rewrite two_spaces_codes in Hspaces.
    by rewrite (contains_two_spaces _ i) in Hspaces.
Qed.

End CleanSeriesMore.
